(** * fix-cloudflare-tunnel-dns: the reconciliation engine of [fix.py]

    A shallow embedding of [fix.py]: the [Record] dataclass, the builders
    [desired] and [current], the three apply functions [create], [update]
    and [delete], and [process].

    Modelling conventions.
    - Python [str] is [string]; [int] is [Z]; [str | None] is [option string].
    - A Python [dict] of records is a [gmap string Record].  The dicts the
      builders return are heap objects passed by reference to the apply
      functions, so the world carries a heap of dict objects and the
      builders write into it with [setitem].
    - The iteration order of a [set] of strings (and so of the dicts
      [records] built from one) depends on the interpreter's string hashing;
      [map_to_list] stands for that order, and no theorem depends on it.
    - The provider is a read-only snapshot [cf] for the listing calls
      ([zones()] and [tunnels()] are [@cache]d, every other listing is made
      once per key before the first mutation); the mutation calls are
      recorded in the world's trace [calls] and are taken to succeed.
    - [logger] and [print] output is not modelled. *)

From Stdlib Require Import ZArith Ascii String.

From stdpp Require Import gmap strings list fin_maps functions.

Local Open Scope Z_scope.

(** ** Python string methods used by the source *)

Module Str.

(** [s.split(sep)] for a one-character separator: one more piece than there
    are separators, empty pieces kept. *)
Fixpoint split (sep : ascii) (s : string) : list string :=
  match s with
  | EmptyString => [EmptyString]
  | String ch rest =>
      if Ascii.eqb ch sep then EmptyString :: split sep rest
      else match split sep rest with
           | [] => [String ch EmptyString]   (* not reached *)
           | piece :: pieces => String ch piece :: pieces
           end
  end.

(** [sep.join(pieces)]. *)
Fixpoint join (sep : string) (pieces : list string) : string :=
  match pieces with
  | [] => EmptyString
  | [piece] => piece
  | piece :: more => piece +:+ sep +:+ join sep more
  end.

(** [s.endswith(suffix)]. *)
Fixpoint endswith (s suffix : string) : bool :=
  if String.eqb s suffix then true
  else match s with
       | EmptyString => false
       | String _ rest => endswith rest suffix
       end.

End Str.

(** ** The [Record] dataclass *)

Record Record := mkRecord {
  id : option string;
  zone_id : string;
  type : string;
  content : string;
  proxiable : bool;
  proxied : bool;
  ttl : Z
}.

(** [d !!! k] stands for [d[k]]; the comprehensions below only use it at
    keys of [d], where the default is not reached. *)
#[global] Instance Record_inhabited : Inhabited Record :=
  populate (mkRecord None "" "" "" false false 0).

(** The tuple of fields a frozen dataclass compares in its generated
    [__eq__]. *)
Definition astuple (r : Record)
  : option string * string * string * string * bool * bool * Z :=
  (id r, zone_id r, type r, content r, proxiable r, proxied r, ttl r).

(** [a == b] and [a != b] on records. *)
Definition Record_eq (a b : Record) : bool := bool_decide (astuple a = astuple b).

Definition Record_ne (a b : Record) : bool := negb (Record_eq a b).

(** The payload [{"name": entry, **props.data()}]: [data()] is [asdict]
    without the keys ["id"] and ["zone_id"]. *)
Record Data := mkData {
  d_name : string;
  d_type : string;
  d_content : string;
  d_proxiable : bool;
  d_proxied : bool;
  d_ttl : Z
}.

Definition data (entry : string) (props : Record) : Data :=
  mkData entry (type props) (content props) (proxiable props) (proxied props)
         (ttl props).

(** ** The provider *)

Record Zone := mkZone { z_id : string; z_name : string }.

Record Tunnel := mkTunnel { t_id : string; t_name : string }.

(** An element of [config["config"]["ingress"]]: only the optional key
    ["hostname"] is read. *)
Record Ingress := mkIngress { hostname : option string }.

(** An element of [cf.zones.dns_records.get(zone_id)]. *)
Record DnsRecord := mkDnsRecord {
  r_id : string;
  r_zone_id : string;
  r_type : string;
  r_content : string;
  r_proxiable : bool;
  r_proxied : bool;
  r_ttl : Z;
  r_name : string
}.

(** The listing side of the client [cf]. *)
Record CloudFlare := mkCloudFlare {
  cfd_tunnel_get : list Tunnel;
  zones_get : list Zone;
  cfd_tunnel_configurations : string → list Ingress;
  dns_records_get : string → list DnsRecord
}.

(** The mutation calls: [cf.zones.dns_records.post/patch/delete]. *)
Inductive Call :=
| Post (zone : string) (payload : Data)
| Patch (zone : string) (record : option string) (payload : Data)
| Delete (zone : string) (record : option string).

(** ** Worlds and the run monad *)

(** The exceptions the source can raise on well-formed provider answers:
    the [ValueError] of [zone_name_to_id] and the [EOFError] of [input]. *)
Inductive Exception :=
| ValueError (msg : string)
| EOFError.

(** References to dict objects. *)
Definition ref := nat.

Record World := mkWorld {
  heap : ref → gmap string Record;   (* the dict objects *)
  next_ref : ref;                    (* the next fresh reference *)
  stdin : list string;               (* the lines [input] will read *)
  calls : list Call                  (* mutation calls issued so far *)
}.

(** A computation returns a value or raises, and leaves a world. *)
Definition Run (A : Type) : Type := World → (Exception + A) * World.

#[global] Instance Run_ret : MRet Run := λ A a w, (inr a, w).

#[global] Instance Run_bind : MBind Run := λ A B f m w,
  match m w with
  | (inl e, w') => (inl e, w')
  | (inr a, w') => f a w'
  end.

Definition raise {A} (e : Exception) : Run A := λ w, (inl e, w).

(** [for x in xs: body(x)]. *)
Fixpoint for_each {A} (xs : list A) (body : A → Run unit) : Run unit :=
  match xs with
  | [] => mret tt
  | x :: rest => body x ;; for_each rest body
  end.

(** [{}]: a fresh dict object. *)
Definition new_dict : Run ref := λ w,
  (inr (next_ref w),
   mkWorld (<[next_ref w := ∅]> (heap w)) (S (next_ref w)) (stdin w) (calls w)).

(** [d[k] = v]. *)
Definition setitem (d : ref) (k : string) (v : Record) : Run unit := λ w,
  (inr tt,
   mkWorld (<[d := <[k := v]> (heap w d)]> (heap w)) (next_ref w) (stdin w)
           (calls w)).

(** Reading the dict object behind a reference. *)
Definition deref (d : ref) : Run (gmap string Record) := λ w, (inr (heap w d), w).

(** [input(...)]: the next line of standard input, [EOFError] at its end. *)
Definition input : Run string := λ w,
  match stdin w with
  | [] => (inl EOFError, w)
  | line :: rest => (inr line, mkWorld (heap w) (next_ref w) rest (calls w))
  end.

(** A mutation call, recorded in the trace. *)
Definition issue (c : Call) : Run unit := λ w,
  (inr tt, mkWorld (heap w) (next_ref w) (stdin w) (calls w ++ [c])).

(** ** The program *)

Section Program.

Variable cf : CloudFlare.

Definition tunnels : list Tunnel := cfd_tunnel_get cf.

Definition zones : list Zone := zones_get cf.

(** The loop of [zone_name_to_id] over the zones still to visit. *)
Fixpoint zone_name_to_id_from (todo : list Zone) (zone_name : string)
  : Run string :=
  match todo with
  | [] => raise (ValueError ("zone " +:+ zone_name +:+ " not found"))
  | zone :: rest =>
      if String.eqb (z_name zone) zone_name then mret (z_id zone)
      else zone_name_to_id_from rest zone_name
  end.

Definition zone_name_to_id (zone_name : string) : Run string :=
  zone_name_to_id_from zones zone_name.

(** The body of the inner loop of [desired]. *)
Definition desired_elem (desired : ref) (tunnel : Tunnel) (elem : Ingress)
  : Run unit :=
  match hostname elem with
  | None => mret tt
  | Some host =>
      let zone_name := Str.join "." (drop 1 (Str.split "." host)) in
      zone_id ← zone_name_to_id zone_name;
      setitem desired host
        (mkRecord None zone_id "CNAME" (t_id tunnel +:+ ".cfargotunnel.com")
                  true true 1)
  end.

Definition desired : Run ref :=
  desired ← new_dict;
  for_each tunnels (λ tunnel,
    let config := cfd_tunnel_configurations cf (t_id tunnel) in
    for_each config (desired_elem desired tunnel));;
  mret desired.

Definition current : Run ref :=
  records ← new_dict;
  for_each zones (λ zone,
    let zone_id := z_id zone in
    let zone_records := dns_records_get cf zone_id in
    for_each zone_records (λ record,
      setitem records (r_name record)
        (mkRecord (Some (r_id record)) (r_zone_id record) (r_type record)
                  (r_content record) (r_proxiable record) (r_proxied record)
                  (r_ttl record))));;
  mret records.

End Program.

(** [prompt and input("Proceed? [y/N] ") != "y"]: [input] is only called
    when [prompt] holds. *)
Definition declined (prompt : bool) : Run bool :=
  if prompt then answer ← input; mret (negb (String.eqb answer "y"))
  else mret false.

(** [{k: desired[k] for k in desired.keys() - current.keys()}]. *)
Definition create_records (desired current : gmap string Record)
  : gmap string Record :=
  set_to_map (λ k, (k, desired !!! k)) (dom desired ∖ dom current).

Definition create (desired current : ref) (prompt : bool) : Run unit :=
  d ← deref desired;
  c ← deref current;
  let records := create_records d c in
  if bool_decide (size records = 0%nat) then mret tt
  else
    no ← declined prompt;
    if (no : bool) then mret tt
    else
      for_each (map_to_list records) (λ '(entry, props),
        issue (Post (zone_id props) (data entry props))).

(** [{k: current[k] for k in current.keys() - desired.keys()
       if k.endswith(".cfargotunnel.com")}]. *)
Definition delete_records (desired current : gmap string Record)
  : gmap string Record :=
  set_to_map (λ k, (k, current !!! k))
    (filter (λ k, Str.endswith k ".cfargotunnel.com" = true)
            (dom current ∖ dom desired)).

(** After the prompt the source logs ["not deleting records"] and goes on
    to the loop: there is no [return] in that branch. *)
Definition delete (desired current : ref) (prompt : bool) : Run unit :=
  d ← deref desired;
  c ← deref current;
  let records := delete_records d c in
  if bool_decide (size records = 0%nat) then mret tt
  else
    no ← declined prompt;
    (if (no : bool) then mret tt else mret tt);;
    for_each (map_to_list records) (λ '(entry, props),
      issue (Delete (zone_id props) (id props))).

(** A [Record] built from [asdict(desired_record)] with the key ["id"]
    overridden by [current_record.id]. *)
Definition truedesire (desired_record current_record : Record) : Record :=
  mkRecord (id current_record) (zone_id desired_record) (type desired_record)
           (content desired_record) (proxiable desired_record)
           (proxied desired_record) (ttl desired_record).

(** [{k: truedesire(desired[k], current[k])
       for k in desired.keys() & current.keys()
       if truedesire(desired[k], current[k]) != current[k]}]. *)
Definition update_records (desired current : gmap string Record)
  : gmap string Record :=
  set_to_map (λ k, (k, truedesire (desired !!! k) (current !!! k)))
    (filter (λ k, Record_ne (truedesire (desired !!! k) (current !!! k))
                            (current !!! k) = true)
            (dom desired ∩ dom current)).

Definition update (desired current : ref) (prompt : bool) : Run unit :=
  d ← deref desired;
  c ← deref current;
  let records := update_records d c in
  if bool_decide (size records = 0%nat) then mret tt
  else
    no ← declined prompt;
    if (no : bool) then mret tt
    else
      for_each (map_to_list records) (λ '(entry, props),
        issue (Patch (zone_id props) (id props) (data entry props))).

Definition process (cf : CloudFlare) (prompt : bool) : Run unit :=
  _desired ← desired cf;
  _current ← current cf;
  create _desired _current prompt;;
  update _desired _current prompt;;
  delete _desired _current prompt.

(** The world a run starts in. *)
Definition start (lines : list string) : World :=
  mkWorld (λ _, ∅) 0%nat lines [].

(** ** Definitions used by the statements *)

(** The zone name [desired] derives from a hostname:
    [".".join(host.split(".")[1:])]. *)
Definition apex (host : string) : string :=
  Str.join "." (drop 1 (Str.split "." host)).

(** What the scan of [zone_name_to_id] finds: the id of the first zone with
    that name. *)
Definition find_zone (zs : list Zone) (zone_name : string) : option string :=
  z_id <$> List.find (λ zone, String.eqb (z_name zone) zone_name) zs.

(** The ingress rules [desired] visits, in order: tunnel id and hostname of
    every element that has the key ["hostname"]. *)
Definition rules_of (tid : string) (config : list Ingress)
  : list (string * string) :=
  omap (λ elem, (tid,.) <$> hostname elem) config.

Definition tunnel_rules (cf : CloudFlare) (tunnel : Tunnel)
  : list (string * string) :=
  rules_of (t_id tunnel) (cfd_tunnel_configurations cf (t_id tunnel)).

Definition ingress_rules (cf : CloudFlare) : list (string * string) :=
  tunnels cf ≫= tunnel_rules cf.

(** The record [desired] stores for a rule of tunnel [tid] in zone [zid]. *)
Definition tunnel_record (zid tid : string) : Record :=
  mkRecord None zid "CNAME" (tid +:+ ".cfargotunnel.com") true true 1.

(** The dict [desired] has built after the rules [rules], starting from
    [acc]; [inl name] when [name] is the first apex that resolves to no
    zone. *)
Fixpoint desired_after (zs : list Zone) (rules : list (string * string))
    (acc : gmap string Record) : string + gmap string Record :=
  match rules with
  | [] => inr acc
  | (tid, host) :: rest =>
      match find_zone zs (apex host) with
      | None => inl (apex host)
      | Some zid => desired_after zs rest (<[host := tunnel_record zid tid]> acc)
      end
  end.

(** The record [current] stores for a listed DNS record. *)
Definition current_record (record : DnsRecord) : Record :=
  mkRecord (Some (r_id record)) (r_zone_id record) (r_type record)
           (r_content record) (r_proxiable record) (r_proxied record)
           (r_ttl record).

(** The dict [current] has built after the listed records [records]. *)
Definition current_after (records : list DnsRecord) (acc : gmap string Record)
  : gmap string Record :=
  foldl (λ acc record, <[r_name record := current_record record]> acc)
        acc records.

(** Every DNS record [current] visits, in order. *)
Definition listed_records (cf : CloudFlare) : list DnsRecord :=
  zones cf ≫= λ zone, dns_records_get cf (z_id zone).

(** The exception [zone_name_to_id] raises. *)
Definition zone_not_found (zone_name : string) : Exception :=
  ValueError ("zone " +:+ zone_name +:+ " not found").

(** The tunnel of the last rule for [host]. *)
Fixpoint last_tunnel (rules : list (string * string)) (host : string)
  : option string :=
  match rules with
  | [] => None
  | (tid, h) :: rest =>
      match last_tunnel rest host with
      | Some t => Some t
      | None => if String.eqb h host then Some tid else None
      end
  end.

Definition resolvable (zs : list Zone) (rule : string * string) : Prop :=
  is_Some (find_zone zs (apex rule.2)).

(** A world with [cs] appended to its trace. *)
Definition add_calls (w : World) (cs : list Call) : World :=
  mkWorld (heap w) (next_ref w) (stdin w) (calls w ++ cs).

(** A world with its standard input replaced. *)
Definition with_stdin (w : World) (lines : list string) : World :=
  mkWorld (heap w) (next_ref w) lines (calls w).

Definition post_call (item : string * Record) : Call :=
  Post (zone_id item.2) (data item.1 item.2).

Definition patch_call (item : string * Record) : Call :=
  Patch (zone_id item.2) (id item.2) (data item.1 item.2).

Definition delete_call (item : string * Record) : Call :=
  Delete (zone_id item.2) (id item.2).

(** The outcome of a gated batch: nothing for an empty batch; with
    [prompt] one line is read, and the batch is applied when [applies]
    accepts that line; without [prompt] it is applied at once. *)
Definition gated (records : gmap string Record) (call : string * Record → Call)
    (applies : string → bool) (prompt : bool) (w : World)
  : (Exception + unit) * World :=
  if bool_decide (size records = 0%nat) then (inr tt, w)
  else if prompt then
    match stdin w with
    | [] => (inl EOFError, w)
    | line :: rest =>
        if applies line
        then (inr tt, add_calls (with_stdin w rest) (call <$> map_to_list records))
        else (inr tt, with_stdin w rest)
    end
  else (inr tt, add_calls w (call <$> map_to_list records)).

(** What a loop of [desired] leaves behind: it writes to the dict at [l]
    only, and either raises for the first unresolved apex or has built the
    dict [desired_after] computes. *)
Definition loop_outcome (l : ref) (w : World)
    (built : string + gmap string Record)
    (out : (Exception + unit) * World) : Prop :=
  next_ref out.2 = next_ref w ∧ stdin out.2 = stdin w ∧
  calls out.2 = calls w ∧
  (∀ l', l' ≠ l → heap out.2 l' = heap w l') ∧
  match built with
  | inl name => out.1 = inl (zone_not_found name)
  | inr d => out.1 = inr tt ∧ heap out.2 l = d
  end.

(** ** Example data *)

Module Ex.

(** One zone; two tunnels with a rule for the same hostname, the second
    with a catch-all rule as well; one listed record for the hostname, kept
    in another zone. *)
Definition cf : CloudFlare :=
  mkCloudFlare
    [mkTunnel "T0" "old"; mkTunnel "T1" "home"]
    [mkZone "Z1" "example.com"]
    (λ tid, if String.eqb tid "T1"
            then [mkIngress (Some "a.example.com"); mkIngress None]
            else [mkIngress (Some "a.example.com")])
    (λ zid, if String.eqb zid "Z1"
            then [mkDnsRecord "rec1" "Z2" "CNAME" "T1.cfargotunnel.com" true
                              true 1 "a.example.com"]
            else []).

(** No tunnel, and one listed record whose name ends with the tunnel suffix. *)
Definition cf_orphan : CloudFlare :=
  mkCloudFlare [] [mkZone "Z1" "example.com"] (λ _, [])
    (λ zid, if String.eqb zid "Z1"
            then [mkDnsRecord "rec9" "Z1" "CNAME" "T3.cfargotunnel.com" true
                              true 1 "old.cfargotunnel.com"]
            else []).

(** A tunnel whose only hostname lies in no known zone. *)
Definition cf_unknown : CloudFlare :=
  mkCloudFlare [mkTunnel "T1" "home"] [mkZone "Z1" "example.com"]
    (λ _, [mkIngress (Some "x.unknown-domain.test")]) (λ _, []).

(** A tunnel whose only hostname has a single label. *)
Definition cf_single : CloudFlare :=
  mkCloudFlare [mkTunnel "T1" "home"] [mkZone "Z1" "example.com"]
    (λ _, [mkIngress (Some "localhost")]) (λ _, []).

Definition desired_a : Record :=
  mkRecord None "Z1" "CNAME" "T1.cfargotunnel.com" true true 1.

Definition desired_a2 : Record :=
  mkRecord None "Z1" "CNAME" "T2.cfargotunnel.com" true true 1.

Definition current_a : Record :=
  mkRecord (Some "rec1") "Z1" "CNAME" "T1.cfargotunnel.com" true true 1.

Definition current_a_z2 : Record :=
  mkRecord (Some "rec1") "Z2" "CNAME" "T1.cfargotunnel.com" true true 1.

Definition current_b : Record :=
  mkRecord (Some "rec2") "Z1" "CNAME" "T3.cfargotunnel.com" true true 1.

Definition current_c : Record :=
  mkRecord (Some "rec3") "Z1" "A" "203.0.113.5" true false 300.

Definition only (host : string) (r : Record) : gmap string Record :=
  {[host := r]}.

(** A world whose dict 0 is [d] and whose dict 1 is [c]. *)
Definition world (d c : gmap string Record) (lines : list string) : World :=
  mkWorld (λ l, match l with O => d | 1%nat => c | _ => ∅ end) 2%nat lines [].

End Ex.

(** ** Definitions used by the further properties *)

(** A run that leaves every dict object as it was and appends to the trace
    only calls that satisfy [P]. *)
Definition issues_only {A} (P : Call → Prop) (w : World)
    (out : (Exception + A) * World) : Prop :=
  heap out.2 = heap w ∧ ∃ cs, calls out.2 = calls w ++ cs ∧ Forall P cs.

(** The mutation calls a run of [process] on the provider [cf] may issue:
    a post of a tunnel CNAME for a ruled hostname that is not listed, to the
    zone named after the hostname's apex; a patch of a listed record of a
    ruled hostname to that tunnel CNAME, addressed by that zone and the
    listed record's id; a delete of a listed record, addressed by its own
    zone id and id, whose name has no rule and ends with the tunnel
    suffix. *)
Definition allowed_call (cf : CloudFlare) (call : Call) : Prop :=
  match call with
  | Post z p =>
      ∃ tunnel zone,
        tunnel ∈ tunnels cf ∧
        mkIngress (Some (d_name p)) ∈ cfd_tunnel_configurations cf (t_id tunnel) ∧
        zone ∈ zones cf ∧ z_name zone = apex (d_name p) ∧ z = z_id zone ∧
        p = mkData (d_name p) "CNAME" (t_id tunnel +:+ ".cfargotunnel.com")
                   true true 1 ∧
        (∀ r, r ∈ listed_records cf → r_name r ≠ d_name p)
  | Patch z i p =>
      ∃ tunnel zone record,
        tunnel ∈ tunnels cf ∧
        mkIngress (Some (d_name p)) ∈ cfd_tunnel_configurations cf (t_id tunnel) ∧
        zone ∈ zones cf ∧ z_name zone = apex (d_name p) ∧ z = z_id zone ∧
        p = mkData (d_name p) "CNAME" (t_id tunnel +:+ ".cfargotunnel.com")
                   true true 1 ∧
        record ∈ listed_records cf ∧ r_name record = d_name p ∧
        i = Some (r_id record)
  | Delete z i =>
      ∃ record,
        record ∈ listed_records cf ∧ z = r_zone_id record ∧
        i = Some (r_id record) ∧
        Str.endswith (r_name record) ".cfargotunnel.com" = true ∧
        (∀ tunnel,
           tunnel ∈ tunnels cf →
           mkIngress (Some (r_name record))
             ∉ cfd_tunnel_configurations cf (t_id tunnel))
  end.

(** The two builders as [process] runs them. *)
Definition builders (cf : CloudFlare) : Run (ref * ref) :=
  _desired ← desired cf;
  _current ← current cf;
  mret (_desired, _current).

Module Ex2.

(** Two zones with the same name. *)
Definition cf_two_zones : CloudFlare :=
  mkCloudFlare [] [mkZone "Z1" "example.com"; mkZone "Z9" "example.com"]
    (λ _, []) (λ _, []).

(** Two zones that both list a record named [a.example.com]. *)
Definition cf_two_records : CloudFlare :=
  mkCloudFlare [] [mkZone "Z1" "example.com"; mkZone "Z2" "example.org"]
    (λ _, [])
    (λ zid, if String.eqb zid "Z1"
            then [mkDnsRecord "rec1" "Z1" "A" "203.0.113.5" false false 300
                              "a.example.com"]
            else [mkDnsRecord "rec2" "Z2" "CNAME" "T1.cfargotunnel.com" true
                              true 1 "a.example.com"]).

(** One tunnel with a rule for [a.example.com] and one for [n.example.com];
    the zone lists the first in sync, an orphan [b.example.com] that points
    at a tunnel, and nothing for the second. *)
Definition cf_mixed : CloudFlare :=
  mkCloudFlare [mkTunnel "T1" "home"] [mkZone "Z1" "example.com"]
    (λ _, [mkIngress (Some "a.example.com"); mkIngress (Some "n.example.com")])
    (λ _, [mkDnsRecord "rec1" "Z1" "CNAME" "T0.cfargotunnel.com" true true 1
                       "a.example.com";
           mkDnsRecord "rec2" "Z1" "CNAME" "T3.cfargotunnel.com" true true 1
                       "b.example.com"]).

(** One tunnel with a rule for [a.example.com], listed in sync. *)
Definition cf_sync : CloudFlare :=
  mkCloudFlare [mkTunnel "T1" "home"] [mkZone "Z1" "example.com"]
    (λ _, [mkIngress (Some "a.example.com")])
    (λ _, [mkDnsRecord "rec1" "Z1" "CNAME" "T1.cfargotunnel.com" true true 1
                       "a.example.com";
           mkDnsRecord "rec3" "Z1" "A" "203.0.113.5" true false 300
                       "c.example.com"]).

(** One tunnel with three rules: the first hostname lies in the listed
    zone, the second and the third lie in two different unknown zones. *)
Definition cf_three : CloudFlare :=
  mkCloudFlare [mkTunnel "T1" "home"] [mkZone "Z1" "example.com"]
    (λ _, [mkIngress (Some "a.example.com"); mkIngress (Some "b.other.test");
           mkIngress (Some "c.third.test")])
    (λ _, []).

End Ex2.

(** ** Strings *)

Lemma append_nil_l s : "" +:+ s = s.
Proof. reflexivity. Qed.

Lemma append_cons ch s t : String ch s +:+ t = String ch (s +:+ t).
Proof. reflexivity. Qed.

Lemma split_nonempty sep s : Str.split sep s ≠ [].
Proof. destruct s as [|ch rest]; simpl; [done|]. repeat case_match; done. Qed.

Lemma join_cons_char sep ch piece pieces :
  Str.join sep (String ch piece :: pieces)
  = String ch (Str.join sep (piece :: pieces)).
Proof. destruct pieces; reflexivity. Qed.

Lemma join_split sep s : Str.join (String sep "") (Str.split sep s) = s.
Proof.
  induction s as [|ch rest IH]; simpl; [done|].
  destruct (Ascii.eqb_spec ch sep) as [->|Hne].
  - pose proof (split_nonempty sep rest) as Hs.
    destruct (Str.split sep rest) as [|piece pieces] eqn:E; [done|].
    simpl in *. by rewrite IH.
  - pose proof (split_nonempty sep rest) as Hs.
    destruct (Str.split sep rest) as [|piece pieces] eqn:E; [done|].
    rewrite join_cons_char. by rewrite IH.
Qed.

Lemma split_no_sep sep s :
  sep ∉ list_ascii_of_string s → Str.split sep s = [s].
Proof.
  induction s as [|ch rest IH]; simpl; [done|].
  intros Hnot. apply not_elem_of_cons in Hnot as [Hne Hrest].
  destruct (Ascii.eqb_spec ch sep) as [->|_]; [done|].
  by rewrite IH.
Qed.

Lemma split_label sep label rest :
  sep ∉ list_ascii_of_string label →
  Str.split sep (label +:+ String sep rest) = label :: Str.split sep rest.
Proof.
  induction label as [|ch label IH]; intros Hnot.
  - rewrite append_nil_l. simpl. by rewrite Ascii.eqb_refl.
  - apply not_elem_of_cons in Hnot as [Hne Hrest].
    rewrite append_cons. simpl.
    destruct (Ascii.eqb_spec ch sep) as [->|_]; [done|].
    by rewrite IH.
Qed.

Lemma apex_no_dot host : "."%char ∉ list_ascii_of_string host → apex host = "".
Proof. intros Hnot. unfold apex. by rewrite split_no_sep. Qed.

Lemma apex_label label rest :
  "."%char ∉ list_ascii_of_string label → apex (label +:+ "." +:+ rest) = rest.
Proof.
  intros Hnot. unfold apex.
  change ("." +:+ rest) with (String "." rest).
  rewrite split_label by done. simpl. apply (join_split "." rest).
Qed.

Lemma endswith_spec s suffix :
  Str.endswith s suffix = true ↔ ∃ front, s = front +:+ suffix.
Proof.
  induction s as [|ch rest IH]; cbn [Str.endswith].
  - destruct (String.eqb_spec "" suffix) as [<-|Hne].
    + split; [by exists ""|done].
    + split; [done|]. intros [front Hf].
      destruct front; rewrite ?append_nil_l, ?append_cons in Hf; congruence.
  - destruct (String.eqb_spec (String ch rest) suffix) as [<-|Hne].
    + split; [by exists ""|done].
    + rewrite IH. split.
      * intros [front ->]. by exists (String ch front).
      * intros [front Hf].
        destruct front as [|ch' front]; rewrite ?append_nil_l, ?append_cons in Hf.
        -- congruence.
        -- exists front. congruence.
Qed.

(** ** Record equality *)

Lemma Record_eq_true a b : Record_eq a b = true ↔ a = b.
Proof.
  unfold Record_eq. rewrite bool_decide_eq_true. split; [|by intros ->].
  destruct a, b. unfold astuple. simpl. congruence.
Qed.

Lemma Record_ne_true a b : Record_ne a b = true ↔ a ≠ b.
Proof.
  unfold Record_ne. rewrite negb_true_iff, <- not_true_iff_false.
  by rewrite Record_eq_true.
Qed.

Lemma Record_ne_false a b : Record_ne a b = false ↔ a = b.
Proof.
  unfold Record_ne. rewrite negb_false_iff. apply Record_eq_true.
Qed.

(** ** The three dict comprehensions *)

Lemma lookup_comprehension (value : string → Record) (keys : gset string) k :
  (set_to_map (λ k, (k, value k)) keys : gmap string Record) !! k
  = if decide (k ∈ keys) then Some (value k) else None.
Proof.
  assert (Hinj : ∀ y y' : string, y ∈ keys → y' ∈ keys →
            ((λ k, (k, value k)) y).1 = ((λ k, (k, value k)) y').1 → y = y')
    by (by intros y y' _ _ Heq).
  destruct (decide (k ∈ keys)) as [Hin|Hnot].
  - apply (lookup_set_to_map _ _ _ _ Hinj). by exists k.
  - apply eq_None_not_Some. intros [x Hx].
    apply (lookup_set_to_map _ _ _ _ Hinj) in Hx as (y & Hy & Heq).
    simplify_eq. done.
Qed.

Lemma create_records_lookup (d c : gmap string Record) k :
  create_records d c !! k
  = match c !! k with Some _ => None | None => d !! k end.
Proof.
  unfold create_records. rewrite lookup_comprehension.
  destruct (decide (k ∈ dom d ∖ dom c)) as [Hin|Hnot].
  - apply elem_of_difference in Hin as [[x Hx]%elem_of_dom Hc].
    apply not_elem_of_dom in Hc. rewrite Hc, Hx.
    by rewrite (lookup_total_correct _ _ _ Hx).
  - destruct (c !! k) eqn:Hc; [done|].
    destruct (d !! k) eqn:Hd; [|done].
    exfalso. apply Hnot, elem_of_difference. split.
    + by apply elem_of_dom.
    + by apply not_elem_of_dom.
Qed.

Lemma delete_records_lookup (d c : gmap string Record) k :
  delete_records d c !! k
  = if Str.endswith k ".cfargotunnel.com"
    then match d !! k with Some _ => None | None => c !! k end
    else None.
Proof.
  unfold delete_records. rewrite lookup_comprehension.
  destruct (decide (k ∈ _)) as [Hin|Hnot].
  - apply elem_of_filter in Hin as [Hend Hin].
    apply elem_of_difference in Hin as [[x Hx]%elem_of_dom Hd].
    apply not_elem_of_dom in Hd. rewrite Hend, Hd, Hx.
    by rewrite (lookup_total_correct _ _ _ Hx).
  - destruct (Str.endswith k ".cfargotunnel.com") eqn:Hend; [|done].
    destruct (d !! k) eqn:Hd; [done|].
    destruct (c !! k) eqn:Hc; [|done].
    exfalso. apply Hnot, elem_of_filter. split; [done|].
    apply elem_of_difference. split.
    + by apply elem_of_dom.
    + by apply not_elem_of_dom.
Qed.

Lemma update_records_lookup (d c : gmap string Record) k :
  update_records d c !! k
  = match d !! k, c !! k with
    | Some dr, Some cr =>
        if Record_ne (truedesire dr cr) cr then Some (truedesire dr cr)
        else None
    | _, _ => None
    end.
Proof.
  unfold update_records. rewrite lookup_comprehension.
  destruct (decide (k ∈ _)) as [Hin|Hnot].
  - apply elem_of_filter in Hin as [Hne Hin].
    apply elem_of_intersection in Hin as [[dr Hd]%elem_of_dom [cr Hc]%elem_of_dom].
    rewrite (lookup_total_correct _ _ _ Hd), (lookup_total_correct _ _ _ Hc) in *.
    by rewrite Hd, Hc, Hne.
  - destruct (d !! k) as [dr|] eqn:Hd; [|done].
    destruct (c !! k) as [cr|] eqn:Hc; [|done].
    destruct (Record_ne (truedesire dr cr) cr) eqn:Hne; [|done].
    exfalso. apply Hnot, elem_of_filter.
    rewrite (lookup_total_correct _ _ _ Hd), (lookup_total_correct _ _ _ Hc).
    split; [done|]. apply elem_of_intersection.
    split; by apply elem_of_dom.
Qed.

(** ** Key sets of the batches *)

Lemma create_records_dom (d c : gmap string Record) :
  dom (create_records d c) = dom d ∖ dom c.
Proof.
  apply set_eq. intros k.
  rewrite elem_of_difference, !elem_of_dom, create_records_lookup.
  destruct (c !! k) eqn:Hc.
  - split; [by intros [? ?]|]. intros [_ Hnot]. exfalso. by apply Hnot.
  - split; [|by intros [? _]]. intros Hd. split; [done|by intros [? ?]].
Qed.

Lemma update_records_dom (d c : gmap string Record) :
  dom (update_records d c) ⊆ dom d ∩ dom c.
Proof.
  intros k. rewrite elem_of_intersection, !elem_of_dom, update_records_lookup.
  destruct (d !! k), (c !! k); by intros [? ?].
Qed.

Lemma delete_records_dom (d c : gmap string Record) :
  dom (delete_records d c) ⊆ dom c ∖ dom d.
Proof.
  intros k. rewrite elem_of_difference, !elem_of_dom, delete_records_lookup.
  destruct (Str.endswith k ".cfargotunnel.com"); [|by intros [? ?]].
  destruct (d !! k) eqn:Hd; [by intros [? ?]|].
  intros Hc. split; [done|by intros [? ?]].
Qed.

Lemma create_records_empty (d : gmap string Record) : create_records d ∅ = d.
Proof. apply map_eq. intros k. by rewrite create_records_lookup, lookup_empty. Qed.

Lemma update_records_empty (d : gmap string Record) : update_records d ∅ = ∅.
Proof.
  apply map_eq. intros k. rewrite update_records_lookup, !lookup_empty.
  by destruct (d !! k).
Qed.

Lemma delete_records_empty (d : gmap string Record) : delete_records d ∅ = ∅.
Proof.
  apply map_eq. intros k. rewrite delete_records_lookup, !lookup_empty.
  by repeat case_match.
Qed.

Lemma truedesire_eq dr cr :
  truedesire dr cr = cr ↔
  zone_id dr = zone_id cr ∧ type dr = type cr ∧ content dr = content cr ∧
  proxiable dr = proxiable cr ∧ proxied dr = proxied cr ∧ ttl dr = ttl cr.
Proof.
  destruct dr, cr. unfold truedesire. simpl. split.
  - by intros [= -> -> -> -> -> ->].
  - by intros (-> & -> & -> & -> & -> & ->).
Qed.

(** ** Zone lookup *)

Lemma find_zone_None zs zone_name :
  find_zone zs zone_name = None ↔ ∀ zone, zone ∈ zs → z_name zone ≠ zone_name.
Proof.
  unfold find_zone. induction zs as [|z rest IH]; simpl.
  - split; [by intros _ zone ?%elem_of_nil|done].
  - destruct (String.eqb_spec (z_name z) zone_name) as [Heq|Hne]; simpl.
    + split; [done|]. intros Hall. exfalso. apply (Hall z); [left|done].
    + rewrite IH. split.
      * intros Hall zone [->|Hin]%elem_of_cons; auto.
      * intros Hall zone Hin. apply Hall. by right.
Qed.

Lemma find_zone_Some zs zone_name zid :
  find_zone zs zone_name = Some zid →
  ∃ zone, zone ∈ zs ∧ z_name zone = zone_name ∧ z_id zone = zid.
Proof.
  unfold find_zone. induction zs as [|z rest IH]; simpl; [done|].
  destruct (String.eqb_spec (z_name z) zone_name) as [Heq|Hne]; simpl.
  - intros [= <-]. exists z. split_and!; [left|done|done].
  - intros (zone & Hin & Hz)%IH. exists zone. split; [by right|done].
Qed.

Lemma find_zone_is_Some zs zone_name :
  is_Some (find_zone zs zone_name) ↔ ∃ zone, zone ∈ zs ∧ z_name zone = zone_name.
Proof.
  split.
  - intros [zid (zone & Hin & Hn & _)%find_zone_Some]. by exists zone.
  - intros (zone & Hin & Hn). apply not_eq_None_Some.
    rewrite find_zone_None. intros Hall. by apply (Hall zone).
Qed.

(** ** Running the monad *)

Lemma bind_run {A B} (m : Run A) (f : A → Run B) w :
  (m ≫= f) w
  = match m w with
    | (inl e, w') => (inl e, w')
    | (inr a, w') => f a w'
    end.
Proof. reflexivity. Qed.

Lemma ret_run {A} (a : A) w : (mret a : Run A) w = (inr a, w).
Proof. reflexivity. Qed.

Ltac run_step := rewrite bind_run; cbv beta iota zeta.

Lemma add_calls_nil w : add_calls w [] = w.
Proof. destruct w. unfold add_calls. simpl. by rewrite app_nil_r. Qed.

Lemma for_each_issue {A} (xs : list A) (body : A → Run unit) (call : A → Call) w :
  (∀ x, body x = issue (call x)) →
  for_each xs body w = (inr tt, add_calls w (call <$> xs)).
Proof.
  intros Hbody. revert w. induction xs as [|x rest IH]; intros w.
  - simpl. by rewrite ret_run, add_calls_nil.
  - cbn [for_each]. rewrite bind_run, Hbody. unfold issue at 1.
    rewrite IH. unfold add_calls. simpl. by rewrite <- app_assoc.
Qed.

Lemma zone_name_to_id_from_run zs zone_name w :
  zone_name_to_id_from zs zone_name w
  = (match find_zone zs zone_name with
     | Some zid => inr zid
     | None => inl (zone_not_found zone_name)
     end, w).
Proof.
  induction zs as [|zone rest IH]; [done|].
  unfold find_zone in *. simpl.
  destruct (String.eqb (z_name zone) zone_name); [done|]. apply IH.
Qed.

Lemma zone_name_to_id_run cf zone_name w :
  zone_name_to_id cf zone_name w
  = (match find_zone (zones cf) zone_name with
     | Some zid => inr zid
     | None => inl (zone_not_found zone_name)
     end, w).
Proof. apply zone_name_to_id_from_run. Qed.

(** ** The dict [desired] builds *)

Lemma desired_after_app zs rules1 rules2 acc :
  desired_after zs (rules1 ++ rules2) acc
  = match desired_after zs rules1 acc with
    | inl name => inl name
    | inr d => desired_after zs rules2 d
    end.
Proof.
  revert acc. induction rules1 as [|[tid host] rest IH]; intros acc; [done|].
  simpl. destruct (find_zone zs (apex host)); [apply IH|done].
Qed.

Lemma desired_after_total zs rules acc :
  Forall (resolvable zs) rules → ∃ d, desired_after zs rules acc = inr d.
Proof.
  intros Hall. revert acc.
  induction Hall as [|[tid host] rest [zid Hz] _ IH]; intros acc; simpl.
  - by exists acc.
  - simpl in Hz. rewrite Hz. apply IH.
Qed.

Lemma desired_after_fails zs rules acc name :
  desired_after zs rules acc = inl name ↔
  ∃ before tid host after,
    rules = before ++ (tid, host) :: after ∧
    Forall (resolvable zs) before ∧
    find_zone zs (apex host) = None ∧ name = apex host.
Proof.
  revert acc. induction rules as [|[tid host] rest IH]; intros acc; simpl.
  - split; [done|]. intros (before & ? & ? & ? & Heq & _).
    by destruct before.
  - destruct (find_zone zs (apex host)) as [zid|] eqn:Hz.
    + rewrite IH. split.
      * intros (before & tid' & host' & after & -> & Hall & Hnone & ->).
        exists ((tid, host) :: before), tid', host', after.
        split_and!; try done. constructor; [|done]. by exists zid.
      * intros (before & tid' & host' & after & Heq & Hall & Hnone & ->).
        destruct before as [|rule before]; simpl in Heq; simplify_eq.
        apply Forall_cons_iff in Hall as [_ Hall].
        by exists before, tid', host', after.
    + split.
      * intros [= <-]. by exists [], tid, host, rest.
      * intros (before & tid' & host' & after & Heq & Hall & Hnone & ->).
        destruct before as [|rule before]; simpl in Heq; simplify_eq; [done|].
        apply Forall_cons_iff in Hall as [[zid Hzid] _]. simpl in Hzid. congruence.
Qed.

Lemma desired_after_unresolved zs rules acc :
  ¬ Forall (resolvable zs) rules → ∃ name, desired_after zs rules acc = inl name.
Proof.
  intros Hnot. destruct (desired_after zs rules acc) as [name|d] eqn:E;
    [by exists name|].
  exfalso. apply Hnot. clear Hnot. revert acc E.
  induction rules as [|[tid host] rest IH]; intros acc E; [done|].
  simpl in E. destruct (find_zone zs (apex host)) as [zid|] eqn:Hz; [|done].
  constructor; [by exists zid|by eapply IH].
Qed.

Lemma desired_after_first zs before tid host after acc :
  Forall (resolvable zs) before → find_zone zs (apex host) = None →
  desired_after zs (before ++ (tid, host) :: after) acc = inl (apex host).
Proof.
  intros Hall Hnone. rewrite desired_after_app.
  destruct (desired_after_total zs before acc Hall) as [d ->].
  simpl. by rewrite Hnone.
Qed.

Lemma unresolved_rule_fails zs rules tid host acc :
  (tid, host) ∈ rules → find_zone zs (apex host) = None →
  ∃ name, desired_after zs rules acc = inl name.
Proof.
  intros Hin Hnone. apply desired_after_unresolved. intros Hall.
  rewrite Forall_forall in Hall. destruct (Hall (tid, host)) as [zid Hz].
  - by apply list_elem_of_In.
  - simpl in Hz. congruence.
Qed.

Lemma desired_after_lookup zs rules acc d host :
  desired_after zs rules acc = inr d →
  d !! host
  = match last_tunnel rules host with
    | Some tid => (λ zid, tunnel_record zid tid) <$> find_zone zs (apex host)
    | None => acc !! host
    end.
Proof.
  revert acc. induction rules as [|[tid h] rest IH]; intros acc E; simpl in *.
  - by simplify_eq.
  - destruct (find_zone zs (apex h)) as [zid|] eqn:Hz; [|done].
    rewrite (IH _ E). destruct (last_tunnel rest host); [done|].
    destruct (String.eqb_spec h host) as [->|Hne].
    + by rewrite lookup_insert_eq, Hz.
    + by rewrite lookup_insert_ne.
Qed.

Lemma last_tunnel_elem rules host tid :
  last_tunnel rules host = Some tid → (tid, host) ∈ rules.
Proof.
  induction rules as [|[t h] rest IH]; simpl; [done|].
  destruct (last_tunnel rest host) as [t'|].
  - intros [= ->]. right. by apply IH.
  - destruct (String.eqb_spec h host) as [->|]; [|done].
    intros [= ->]. left.
Qed.

Lemma elem_last_tunnel rules host tid :
  (tid, host) ∈ rules → is_Some (last_tunnel rules host).
Proof.
  induction rules as [|[t h] rest IH]; simpl; [by intros ?%elem_of_nil|].
  intros [[= -> ->]|Hin]%elem_of_cons.
  - destruct (last_tunnel rest h); [done|]. by rewrite String.eqb_refl.
  - destruct (IH Hin) as [t' ->]. done.
Qed.

Lemma last_tunnel_none rules host :
  (∀ tid, (tid, host) ∉ rules) → last_tunnel rules host = None.
Proof.
  intros Hnot. destruct (last_tunnel rules host) as [tid|] eqn:E; [|done].
  apply last_tunnel_elem in E. by destruct (Hnot tid).
Qed.

Lemma last_tunnel_after before tid host after :
  (∀ tid', (tid', host) ∉ after) →
  last_tunnel (before ++ (tid, host) :: after) host = Some tid.
Proof.
  intros Hnot. induction before as [|[t h] before IH]; simpl.
  - by rewrite (last_tunnel_none _ _ Hnot), String.eqb_refl.
  - by rewrite IH.
Qed.

Lemma desired_after_id zs rules d host r :
  desired_after zs rules ∅ = inr d → d !! host = Some r → id r = None.
Proof.
  intros Hd. rewrite (desired_after_lookup _ _ _ _ host Hd), lookup_empty.
  destruct (last_tunnel rules host); [|done].
  destruct (find_zone zs (apex host)); [|done].
  by intros [= <-].
Qed.

Lemma desired_after_zone zs rules d host r :
  desired_after zs rules ∅ = inr d → d !! host = Some r →
  find_zone zs (apex host) = Some (zone_id r).
Proof.
  intros Hd. rewrite (desired_after_lookup _ _ _ _ host Hd), lookup_empty.
  destruct (last_tunnel rules host); [|done].
  destruct (find_zone zs (apex host)); [|done].
  by intros [= <-].
Qed.

Lemma desired_elems_outcome cf l tunnel config w :
  loop_outcome l w
    (desired_after (zones cf) (rules_of (t_id tunnel) config) (heap w l))
    (for_each config (desired_elem cf l tunnel) w).
Proof.
  revert w. induction config as [|elem rest IH]; intros w.
  - simpl. rewrite ret_run. by repeat split.
  - cbn [for_each]. rewrite bind_run. unfold desired_elem at 1.
    unfold rules_of. simpl. fold (rules_of (t_id tunnel) rest).
    destruct (hostname elem) as [host|]; simpl.
    + rewrite bind_run, zone_name_to_id_run. fold (apex host).
      destruct (find_zone (zones cf) (apex host)) as [zid|].
      * unfold setitem at 1. fold (tunnel_record zid (t_id tunnel)).
        match goal with |- loop_outcome _ _ _ (for_each _ _ ?w1) =>
          specialize (IH w1) end.
        simpl in IH. rewrite fn_lookup_insert in IH.
        destruct IH as (Hn & Hs & Hc & Hh & Hb).
        repeat split; try done.
        intros l' Hne. rewrite Hh by done. simpl.
        by rewrite fn_lookup_insert_ne.
      * by repeat split.
    + apply IH.
Qed.

Lemma desired_tunnels_outcome cf l ts w :
  loop_outcome l w
    (desired_after (zones cf) (ts ≫= tunnel_rules cf) (heap w l))
    (for_each ts (λ tunnel,
       let config := cfd_tunnel_configurations cf (t_id tunnel) in
       for_each config (desired_elem cf l tunnel)) w).
Proof.
  revert w. induction ts as [|tunnel rest IH]; intros w.
  - simpl. rewrite ret_run. by repeat split.
  - cbn [for_each]. rewrite bind_run. simpl.
    rewrite desired_after_app. unfold tunnel_rules at 1.
    pose proof (desired_elems_outcome cf l tunnel
                  (cfd_tunnel_configurations cf (t_id tunnel)) w) as Hin.
    destruct (for_each (cfd_tunnel_configurations cf (t_id tunnel))
                (desired_elem cf l tunnel) w) as [[e|[]] w1].
    + destruct Hin as (Hn & Hs & Hc & Hh & Hb). simpl in *.
      destruct (desired_after (zones cf) _ (heap w l)) as [name|d];
        [|by destruct Hb].
      by repeat split.
    + destruct Hin as (Hn & Hs & Hc & Hh & Hb). simpl in *.
      destruct (desired_after (zones cf) _ (heap w l)) as [name|d]; [done|].
      destruct Hb as [_ Hd]. specialize (IH w1). rewrite Hd in IH.
      destruct IH as (Hn' & Hs' & Hc' & Hh' & Hb').
      split_and!; try congruence; [|exact Hb'].
      intros l' Hne. rewrite Hh' by done. by apply Hh.
Qed.

(** [desired] on any world: the fresh reference it returns holds the dict
    built from [ingress_rules], or it raises for the first unresolved
    apex; the trace, the input and every older dict are as before. *)
Lemma desired_run cf w :
  ∃ w', calls w' = calls w ∧ stdin w' = stdin w ∧
    (∀ l', l' ≠ next_ref w → heap w' l' = heap w l') ∧
    match desired_after (zones cf) (ingress_rules cf) ∅ with
    | inl name => desired cf w = (inl (zone_not_found name), w')
    | inr d => desired cf w = (inr (next_ref w), w') ∧
               heap w' (next_ref w) = d ∧ next_ref w' = S (next_ref w)
    end.
Proof.
  pose proof (desired_tunnels_outcome cf (next_ref w) (tunnels cf)
                (new_dict w).2) as Hout.
  fold (ingress_rules cf) in Hout.
  replace (heap (new_dict w).2 (next_ref w)) with (∅ : gmap string Record)
    in Hout by (simpl; by rewrite fn_lookup_insert).
  unfold desired, mbind, Run_bind, mret, Run_ret. simpl in *.
  destruct (for_each (tunnels cf) _ _) as [[e|[]] w1];
    destruct Hout as (Hn & Hs & Hc & Hh & Hb); simpl in *;
    exists w1; (split_and!; try done;
      [intros l' Hne; rewrite Hh by done; by rewrite fn_lookup_insert_ne|]).
  - destruct (desired_after _ _ _); [congruence|by destruct Hb].
  - destruct (desired_after _ _ _); [done|]. by destruct Hb as [_ Hd].
Qed.

Lemma desired_returns cf w l w' :
  desired cf w = (inr l, w') →
  l = next_ref w ∧ next_ref w' = S l ∧ calls w' = calls w ∧
  stdin w' = stdin w ∧
  desired_after (zones cf) (ingress_rules cf) ∅ = inr (heap w' l).
Proof.
  intros Hrun. destruct (desired_run cf w) as (w1 & Hc & Hs & _ & Hm).
  destruct (desired_after (zones cf) (ingress_rules cf) ∅) as [name|d].
  - congruence.
  - destruct Hm as (Hrun' & Hd & Hn). rewrite Hrun in Hrun'.
    simplify_eq. by split_and!.
Qed.

(** ** The dict [current] builds *)

Lemma current_records_run l records w :
  ∃ w', for_each records (λ record,
          setitem l (r_name record)
            (mkRecord (Some (r_id record)) (r_zone_id record) (r_type record)
                      (r_content record) (r_proxiable record)
                      (r_proxied record) (r_ttl record))) w = (inr tt, w') ∧
    next_ref w' = next_ref w ∧ stdin w' = stdin w ∧ calls w' = calls w ∧
    (∀ l', l' ≠ l → heap w' l' = heap w l') ∧
    heap w' l = current_after records (heap w l).
Proof.
  revert w. induction records as [|record rest IH]; intros w.
  - by exists w.
  - cbn [for_each]. run_step. unfold setitem at 1.
    match goal with |- context [for_each _ _ ?w1] =>
      destruct (IH w1) as (w' & Hrun & Hn & Hs & Hc & Hh & Hd) end.
    simpl in *. rewrite fn_lookup_insert in Hd.
    exists w'. split_and!; try done.
    intros l' Hne. rewrite Hh by done. by rewrite fn_lookup_insert_ne.
Qed.

Lemma current_zones_run cf l zs w :
  ∃ w', for_each zs (λ zone,
          let zone_id := z_id zone in
          let zone_records := dns_records_get cf zone_id in
          for_each zone_records (λ record,
            setitem l (r_name record)
              (mkRecord (Some (r_id record)) (r_zone_id record)
                        (r_type record) (r_content record)
                        (r_proxiable record) (r_proxied record)
                        (r_ttl record)))) w = (inr tt, w') ∧
    next_ref w' = next_ref w ∧ stdin w' = stdin w ∧ calls w' = calls w ∧
    (∀ l', l' ≠ l → heap w' l' = heap w l') ∧
    heap w' l
    = current_after (zs ≫= λ zone, dns_records_get cf (z_id zone)) (heap w l).
Proof.
  revert w. induction zs as [|zone rest IH]; intros w.
  - by exists w.
  - cbn [for_each]. run_step.
    destruct (current_records_run l (dns_records_get cf (z_id zone)) w)
      as (w1 & -> & Hn1 & Hs1 & Hc1 & Hh1 & Hd1).
    destruct (IH w1) as (w' & Hrun & Hn & Hs & Hc & Hh & Hd).
    exists w'. split_and!; [exact Hrun|congruence..| |].
    + intros l' Hne. rewrite Hh by done. by apply Hh1.
    + rewrite Hd, Hd1. simpl. unfold current_after. by rewrite foldl_app.
Qed.

(** [current] on any world: it never raises, and the fresh reference it
    returns holds the dict built from [listed_records]. *)
Lemma current_run cf w :
  ∃ w', current cf w = (inr (next_ref w), w') ∧
    next_ref w' = S (next_ref w) ∧ stdin w' = stdin w ∧ calls w' = calls w ∧
    (∀ l', l' ≠ next_ref w → heap w' l' = heap w l') ∧
    heap w' (next_ref w) = current_after (listed_records cf) ∅.
Proof.
  set (w1 := mkWorld (<[next_ref w:=∅]> (heap w)) (S (next_ref w)) (stdin w)
                     (calls w)).
  destruct (current_zones_run cf (next_ref w) (zones cf) w1)
    as (w' & Hrun & Hn & Hs & Hc & Hh & Hd).
  exists w'. split_and!; try done.
  - unfold current. rewrite bind_run. unfold new_dict at 1. fold w1.
    cbv zeta in Hrun. by rewrite bind_run, Hrun.
  - intros l' Hne. rewrite Hh by done. subst w1. simpl.
    by rewrite fn_lookup_insert_ne.
  - rewrite Hd. subst w1. simpl. by rewrite fn_lookup_insert.
Qed.

(** ** [process] on any world *)

Lemma process_run cf prompt w :
  match desired_after (zones cf) (ingress_rules cf) ∅ with
  | inl name =>
      ∃ w', desired cf w = (inl (zone_not_found name), w') ∧
            process cf prompt w = (inl (zone_not_found name), w') ∧
            calls w' = calls w ∧ stdin w' = stdin w
  | inr d =>
      ∃ w', heap w' (next_ref w) = d ∧
            heap w' (S (next_ref w)) = current_after (listed_records cf) ∅ ∧
            calls w' = calls w ∧ stdin w' = stdin w ∧
            process cf prompt w
            = (create (next_ref w) (S (next_ref w)) prompt;;
               update (next_ref w) (S (next_ref w)) prompt;;
               delete (next_ref w) (S (next_ref w)) prompt) w'
  end.
Proof.
  destruct (desired_run cf w) as (w1 & Hc & Hs & _ & Hm).
  destruct (desired_after (zones cf) (ingress_rules cf) ∅) as [name|d].
  - exists w1. split_and!; try done. unfold process. run_step. by rewrite Hm.
  - destruct Hm as (Hrun & Hd & Hn).
    destruct (current_run cf w1) as (w2 & Hrun2 & Hn2 & Hs2 & Hc2 & Hh2 & Hd2).
    rewrite Hn in *. exists w2. split_and!; try congruence.
    + rewrite Hh2 by lia. done.
    + unfold process. run_step. rewrite Hrun. run_step. by rewrite Hrun2.
Qed.

(** ** The apply functions on any world *)

Lemma declined_run prompt w :
  declined prompt w
  = if prompt then
      match stdin w with
      | [] => (inl EOFError, w)
      | line :: rest => (inr (negb (String.eqb line "y")), with_stdin w rest)
      end
    else (inr false, w).
Proof.
  unfold declined. destruct prompt; [|done].
  rewrite bind_run. unfold input. by destruct (stdin w).
Qed.

Lemma create_run ld lc prompt w :
  create ld lc prompt w
  = gated (create_records (heap w ld) (heap w lc)) post_call
          (λ line, String.eqb line "y") prompt w.
Proof.
  unfold create, gated, deref. do 2 run_step.
  case_bool_decide; [done|].
  rewrite bind_run, declined_run. destruct prompt.
  - destruct (stdin w) as [|line rest]; [done|].
    destruct (String.eqb line "y"); simpl; [|done].
    apply for_each_issue. by intros [entry props].
  - apply for_each_issue. by intros [entry props].
Qed.

Lemma update_run ld lc prompt w :
  update ld lc prompt w
  = gated (update_records (heap w ld) (heap w lc)) patch_call
          (λ line, String.eqb line "y") prompt w.
Proof.
  unfold update, gated, deref. do 2 run_step.
  case_bool_decide; [done|].
  rewrite bind_run, declined_run. destruct prompt.
  - destruct (stdin w) as [|line rest]; [done|].
    destruct (String.eqb line "y"); simpl; [|done].
    apply for_each_issue. by intros [entry props].
  - apply for_each_issue. by intros [entry props].
Qed.

(** [delete] applies its batch whatever the answer is. *)
Lemma delete_run ld lc prompt w :
  delete ld lc prompt w
  = gated (delete_records (heap w ld) (heap w lc)) delete_call
          (λ _, true) prompt w.
Proof.
  unfold delete, gated, deref. do 2 run_step.
  case_bool_decide; [done|].
  rewrite bind_run, declined_run. destruct prompt.
  - destruct (stdin w) as [|line rest]; [done|].
    rewrite bind_run.
    destruct (String.eqb line "y"); simpl;
      apply for_each_issue; by intros [entry props].
  - rewrite bind_run. simpl. apply for_each_issue. by intros [entry props].
Qed.

Lemma gated_heap records call applies prompt w :
  heap (gated records call applies prompt w).2 = heap w.
Proof.
  unfold gated. repeat case_match; done.
Qed.

(** ** The gate, batch by batch *)

(** [create] honours the gate: any answer other than ["y"] ends it with no
    call issued. *)
Lemma create_honours_gate ld lc w line rest :
  stdin w = line :: rest → line ≠ "y" →
  (create ld lc true w).1 = inr tt ∧ calls (create ld lc true w).2 = calls w.
Proof.
  intros Hin Hline. rewrite create_run. unfold gated.
  case_bool_decide; [done|]. rewrite Hin.
  by destruct (String.eqb_spec line "y").
Qed.

(** [update] honours the gate as well. *)
Lemma update_honours_gate ld lc w line rest :
  stdin w = line :: rest → line ≠ "y" →
  (update ld lc true w).1 = inr tt ∧ calls (update ld lc true w).2 = calls w.
Proof.
  intros Hin Hline. rewrite update_run. unfold gated.
  case_bool_decide; [done|]. rewrite Hin.
  by destruct (String.eqb_spec line "y").
Qed.

(** [delete] reads the answer and applies its batch all the same. *)
Lemma delete_skips_gate ld lc w line rest :
  stdin w = line :: rest →
  delete_records (heap w ld) (heap w lc) ≠ ∅ →
  delete ld lc true w
  = (inr tt,
     add_calls (with_stdin w rest)
       (delete_call <$> map_to_list (delete_records (heap w ld) (heap w lc)))).
Proof.
  intros Hin Hne. rewrite delete_run. unfold gated.
  rewrite bool_decide_eq_false_2 by (by intros ?%map_size_empty_iff).
  by rewrite Hin.
Qed.

(** ** The claims *)

(** C1. Delete-set scoping, evaluated on the code: [delete] tests the
    hostname, not the record's content, against the tunnel suffix.  The
    orphan of the spec's third example, whose content ends with the suffix,
    is left out of the batch, and an orphan with a manually managed content
    is in the batch as soon as its hostname ends with the suffix. *)
Theorem delete_tests_hostname_not_content :
  (∀ (d c : gmap string Record) k,
     delete_records d c !! k
     = if Str.endswith k ".cfargotunnel.com"
       then match d !! k with Some _ => None | None => c !! k end
       else None)
  ∧ Str.endswith (content Ex.current_b) ".cfargotunnel.com" = true
  ∧ delete_records ∅ (Ex.only "b.example.com" Ex.current_b) = ∅
  ∧ Str.endswith (content Ex.current_c) ".cfargotunnel.com" = false
  ∧ delete_records ∅ (Ex.only "c.cfargotunnel.com" Ex.current_c)
    = Ex.only "c.cfargotunnel.com" Ex.current_c.
Proof.
  split; [apply delete_records_lookup|]. vm_compute. by split_and!.
Qed.

(** C2. The confirmation gate, evaluated on the code: with [prompt] set
    and the answer ["n"], [delete] still issues the delete call of its
    batch. *)
Theorem delete_applies_declined_batch :
  (process Ex.cf_orphan true (start ["n"])).1 = inr tt
  ∧ stdin (process Ex.cf_orphan true (start ["n"])).2 = []
  ∧ calls (process Ex.cf_orphan true (start ["n"])).2
    = [Delete "Z1" (Some "rec9")].
Proof. vm_compute. by split_and!. Qed.

(** C3. Update-set membership and minimality: for a hostname in both
    dicts, [truedesire] is the desired record with only its id replaced by
    the current record's; the hostname is in the update batch exactly when
    that record differs from the current one, and is then mapped to it, so
    the batch's record has the current id and the desired record's other
    fields; when the two records agree on every field other than id the
    hostname is not in the batch. *)
Theorem update_set_membership (d c : gmap string Record) k dr cr :
  d !! k = Some dr → c !! k = Some cr →
  truedesire dr cr
    = mkRecord (id cr) (zone_id dr) (type dr) (content dr) (proxiable dr)
               (proxied dr) (ttl dr)
  ∧ (Record_ne (truedesire dr cr) cr = true ↔ truedesire dr cr ≠ cr)
  ∧ (is_Some (update_records d c !! k) ↔ truedesire dr cr ≠ cr)
  ∧ (∀ r, update_records d c !! k = Some r →
       r = truedesire dr cr ∧ id r = id cr ∧ zone_id r = zone_id dr ∧
       type r = type dr ∧ content r = content dr ∧
       proxiable r = proxiable dr ∧ proxied r = proxied dr ∧ ttl r = ttl dr)
  ∧ (zone_id dr = zone_id cr → type dr = type cr → content dr = content cr →
     proxiable dr = proxiable cr → proxied dr = proxied cr →
     ttl dr = ttl cr → update_records d c !! k = None).
Proof.
  intros Hd Hc. rewrite update_records_lookup, Hd, Hc.
  pose proof (Record_ne_true (truedesire dr cr) cr) as Hne.
  split_and!; [done|done| | |].
  - destruct (Record_ne (truedesire dr cr) cr).
    + split; [intros _; by apply Hne|done].
    + split; [by intros [? ?]|]. intros Hdiff. apply Hne in Hdiff. done.
  - intros r. destruct (Record_ne (truedesire dr cr) cr); [|done].
    by intros [= <-].
  - intros Hz Ht Hco Hpa Hpd Htt.
    destruct (Record_ne (truedesire dr cr) cr); [|done].
    exfalso. apply (proj1 Hne eq_refl). by apply truedesire_eq.
Qed.

(** A witness for C3: the spec's second example, a tunnel change on an
    existing record. *)
Lemma update_set_membership_witness :
  update_records (Ex.only "a.example.com" Ex.desired_a2)
                 (Ex.only "a.example.com" Ex.current_a) !! "a.example.com"
  = Some (mkRecord (Some "rec1") "Z1" "CNAME" "T2.cfargotunnel.com" true true 1).
Proof.
  assert (Hd : Ex.only "a.example.com" Ex.desired_a2 !! "a.example.com"
               = Some Ex.desired_a2) by (vm_compute; reflexivity).
  assert (Hc : Ex.only "a.example.com" Ex.current_a !! "a.example.com"
               = Some Ex.current_a) by (vm_compute; reflexivity).
  destruct (update_set_membership _ _ _ _ _ Hd Hc) as (_ & _ & Hin & Hrec & _).
  destruct (proj2 Hin ltac:(discriminate)) as [r Hr].
  rewrite Hr. f_equal. by destruct (Hrec r Hr) as [-> _].
Defined.

(** C4, as the code has it: for a hostname in both dicts, the update batch
    leaves it out exactly when the two records agree on the six fields
    zone id, type, content, proxiable, proxied and ttl. *)
Theorem update_compares_six_fields (d c : gmap string Record) k dr cr :
  d !! k = Some dr → c !! k = Some cr →
  update_records d c !! k = None ↔
  zone_id dr = zone_id cr ∧ type dr = type cr ∧ content dr = content cr ∧
  proxiable dr = proxiable cr ∧ proxied dr = proxied cr ∧ ttl dr = ttl cr.
Proof.
  intros Hd Hc. rewrite update_records_lookup, Hd, Hc, <- truedesire_eq.
  destruct (Record_ne (truedesire dr cr) cr) eqn:E.
  - apply Record_ne_true in E. split; [done|by intros ?].
  - by apply Record_ne_false in E.
Qed.

Lemma update_compares_six_fields_witness :
  update_records (Ex.only "a.example.com" Ex.desired_a)
                 (Ex.only "a.example.com" Ex.current_a) !! "a.example.com"
  = None.
Proof.
  assert (Hd : Ex.only "a.example.com" Ex.desired_a !! "a.example.com"
               = Some Ex.desired_a) by (vm_compute; reflexivity).
  assert (Hc : Ex.only "a.example.com" Ex.current_a !! "a.example.com"
               = Some Ex.current_a) by (vm_compute; reflexivity).
  apply (update_compares_six_fields _ _ _ _ _ Hd Hc). by split_and!.
Defined.

(** C4 as stated fails: the two records below agree on type, content,
    proxiable, proxied and ttl and lie in different zones, and the hostname
    is in the update batch. *)
Lemma update_ignores_zone_counterexample :
  let d := Ex.only "a.example.com" Ex.desired_a in
  let c := Ex.only "a.example.com" Ex.current_a_z2 in
  d !! "a.example.com" = Some Ex.desired_a
  ∧ c !! "a.example.com" = Some Ex.current_a_z2
  ∧ type Ex.desired_a = type Ex.current_a_z2
  ∧ content Ex.desired_a = content Ex.current_a_z2
  ∧ proxiable Ex.desired_a = proxiable Ex.current_a_z2
  ∧ proxied Ex.desired_a = proxied Ex.current_a_z2
  ∧ ttl Ex.desired_a = ttl Ex.current_a_z2
  ∧ update_records d c !! "a.example.com"
    = Some (mkRecord (Some "rec1") "Z1" "CNAME" "T1.cfargotunnel.com" true
                     true 1).
Proof. vm_compute. by split_and!. Qed.

(** C5. Create-set membership: [create]'s batch has exactly the hostnames
    of [desired.keys() - current.keys()], each with the desired record
    itself; the records of a dict built by [desired] have no id.  On the
    spec's first example (one tunnel CNAME desired, nothing current) the
    create batch is that one entry and the other two batches are empty. *)
Theorem create_set_membership (d c : gmap string Record) (k : string) :
  create_records d c !! k
    = match c !! k with Some _ => None | None => d !! k end
  ∧ dom (create_records d c) = dom d ∖ dom c
  ∧ (∀ r, create_records d c !! k = Some r → d !! k = Some r)
  ∧ (∀ cf w l w' r,
       desired cf w = (inr l, w') → d = heap w' l →
       create_records d c !! k = Some r → id r = None)
  ∧ (∀ zid,
       let a := mkRecord None zid "CNAME" "T1.cfargotunnel.com" true true 1 in
       create_records {["a.example.com" := a]} ∅ = {["a.example.com" := a]}
       ∧ update_records {["a.example.com" := a]} ∅ = ∅
       ∧ delete_records {["a.example.com" := a]} ∅ = ∅).
Proof.
  split_and!.
  - apply create_records_lookup.
  - apply create_records_dom.
  - intros r. rewrite create_records_lookup. by destruct (c !! k).
  - intros cf w l w' r Hrun -> Hk.
    apply desired_returns in Hrun as (_ & _ & _ & _ & Hbuilt).
    rewrite create_records_lookup in Hk. destruct (c !! k); [done|].
    by eapply desired_after_id.
  - intros zid a. split_and!.
    + apply create_records_empty.
    + apply update_records_empty.
    + apply delete_records_empty.
Qed.

(** A witness for the id clause of C5: the dict [desired] builds for
    [Ex.cf], diffed against an empty current dict. *)
Lemma create_set_membership_witness :
  desired Ex.cf (start []) = (inr 0%nat, (desired Ex.cf (start [])).2)
  ∧ id Ex.desired_a = None.
Proof.
  assert (Hrun : desired Ex.cf (start [])
                 = (inr 0%nat, (desired Ex.cf (start [])).2))
    by (vm_compute; reflexivity).
  split; [exact Hrun|].
  destruct (create_set_membership (heap (desired Ex.cf (start [])).2 0%nat) ∅
              "a.example.com") as (_ & _ & _ & Hid & _).
  apply (Hid Ex.cf (start []) 0%nat _ Ex.desired_a Hrun eq_refl).
  vm_compute. reflexivity.
Defined.

(** C6, as the code has it.  A zone that is not found is fatal before any
    write: when the apex of some ingress hostname matches no zone of
    [zones()], [desired] raises the [ValueError] naming the apex of the
    first such hostname it visits, tunnels in listing order and the rules
    of a tunnel in order; this is the given hostname's apex when every
    unresolved apex equals it.  [process] ends with that exception, and the
    trace of mutation calls is as it was. *)
Theorem zone_not_found_is_fatal cf prompt w tid host :
  (tid, host) ∈ ingress_rules cf →
  (∀ zone, zone ∈ zones cf → z_name zone ≠ apex host) →
  zone_name_to_id cf (apex host) w
    = (inl (ValueError ("zone " +:+ apex host +:+ " not found")), w)
  ∧ ∃ before tid0 host0 after w',
      ingress_rules cf = before ++ (tid0, host0) :: after
      ∧ Forall (resolvable (zones cf)) before
      ∧ (∀ zone, zone ∈ zones cf → z_name zone ≠ apex host0)
      ∧ desired cf w
        = (inl (ValueError ("zone " +:+ apex host0 +:+ " not found")), w')
      ∧ process cf prompt w
        = (inl (ValueError ("zone " +:+ apex host0 +:+ " not found")), w')
      ∧ calls w' = calls w
      ∧ (Forall (λ rule, resolvable (zones cf) rule ∨ apex rule.2 = apex host)
                (ingress_rules cf) →
         apex host0 = apex host).
Proof.
  intros Hin Hno. apply find_zone_None in Hno. split.
  - by rewrite zone_name_to_id_run, Hno.
  - destruct (unresolved_rule_fails (zones cf) _ _ _ ∅ Hin Hno) as [name Hf].
    pose proof (process_run cf prompt w) as Hrun. rewrite Hf in Hrun.
    destruct Hrun as (w' & Hd & Hp & Hc & _).
    apply desired_after_fails in Hf
      as (before & tid0 & host0 & after & Hrules & Hall & Hnone & ->).
    exists before, tid0, host0, after, w'. split_and!; try done.
    + by apply find_zone_None.
    + intros Hsame. rewrite Forall_forall in Hsame.
      destruct (Hsame (tid0, host0)) as [[zid Hz]|Heq]; [|simpl in *; congruence|done].
      rewrite Hrules. apply in_elt.
Qed.

(** A witness for the amended C6: the spec's fifth example. *)
Lemma zone_not_found_is_fatal_witness :
  (process Ex.cf_unknown true (start ["y"])).1
    = inl (ValueError "zone unknown-domain.test not found")
  ∧ calls (process Ex.cf_unknown true (start ["y"])).2 = [].
Proof.
  assert (Hin : ("T1", "x.unknown-domain.test") ∈ ingress_rules Ex.cf_unknown)
    by (vm_compute; left).
  assert (Hno : ∀ zone, zone ∈ zones Ex.cf_unknown →
                  z_name zone ≠ apex "x.unknown-domain.test").
  { intros zone [->|[]%elem_of_nil]%elem_of_cons. vm_compute. discriminate. }
  destruct (zone_not_found_is_fatal Ex.cf_unknown true (start ["y"]) _ _ Hin Hno)
    as (_ & before & tid0 & host0 & after & w' & _ & _ & _ & _ & Hp & Hc & Hsame).
  rewrite Hp. simpl. rewrite Hc, Hsame; [by vm_compute|].
  assert (Hrules : ingress_rules Ex.cf_unknown
                   = [("T1", "x.unknown-domain.test")])
    by (vm_compute; reflexivity).
  rewrite Hrules. constructor; [by right|constructor].
Defined.

(** C6 as stated fails: the apex of [c.third.test] matches no zone, and
    the error names [other.test], the apex of the unresolved hostname
    visited before it. *)
Lemma zone_not_found_names_first_counterexample :
  ingress_rules Ex2.cf_three
  = [("T1", "a.example.com"); ("T1", "b.other.test"); ("T1", "c.third.test")]
  ∧ zones Ex2.cf_three = [mkZone "Z1" "example.com"]
  ∧ apex "c.third.test" = "third.test"
  ∧ find_zone (zones Ex2.cf_three) (apex "c.third.test") = None
  ∧ (desired Ex2.cf_three (start [])).1
    = inl (ValueError "zone other.test not found")
  ∧ (process Ex2.cf_three true (start [])).1
    = inl (ValueError "zone other.test not found")
  ∧ (desired Ex2.cf_three (start [])).1
    ≠ inl (ValueError "zone third.test not found").
Proof. vm_compute. split_and!; try reflexivity. discriminate. Qed.

(** C7. Desired-record construction: an ingress element without a hostname
    is skipped; one with a hostname whose apex (the hostname without its
    first label) resolves stores under the hostname the record with no id,
    the resolved zone, type CNAME, the tunnel id followed by
    [.cfargotunnel.com], proxiable, proxied and ttl 1; when every apex
    resolves [desired] returns a dict that holds, for each hostname, the
    record of the last rule for it, and nothing else. *)
Theorem desired_record_construction cf w :
  Forall (resolvable (zones cf)) (ingress_rules cf) →
  (∀ l tunnel elem w0,
     hostname elem = None → desired_elem cf l tunnel elem w0 = (inr tt, w0))
  ∧ (∀ l tunnel elem w0 host zid,
       hostname elem = Some host →
       find_zone (zones cf) (apex host) = Some zid →
       desired_elem cf l tunnel elem w0
       = (inr tt,
          mkWorld
            (<[l := <[host := mkRecord None zid "CNAME"
                                (t_id tunnel +:+ ".cfargotunnel.com")
                                true true 1]> (heap w0 l)]> (heap w0))
            (next_ref w0) (stdin w0) (calls w0)))
  ∧ (∀ label rest,
       "."%char ∉ list_ascii_of_string label →
       apex (label +:+ "." +:+ rest) = rest)
  ∧ ∃ w',
      desired cf w = (inr (next_ref w), w')
      ∧ (∀ before tid host after,
           ingress_rules cf = before ++ (tid, host) :: after →
           (∀ tid', (tid', host) ∉ after) →
           ∃ zid,
             find_zone (zones cf) (apex host) = Some zid ∧
             heap w' (next_ref w) !! host
             = Some (mkRecord None zid "CNAME" (tid +:+ ".cfargotunnel.com")
                              true true 1))
      ∧ (∀ host,
           (∀ tid, (tid, host) ∉ ingress_rules cf) →
           heap w' (next_ref w) !! host = None).
Proof.
  intros Hall. split_and!.
  - intros l tunnel elem w0 Hnone. unfold desired_elem. by rewrite Hnone.
  - intros l tunnel elem w0 host zid Hsome Hz. unfold desired_elem.
    rewrite Hsome. cbv zeta. fold (apex host).
    by rewrite bind_run, zone_name_to_id_run, Hz.
  - apply apex_label.
  - destruct (desired_after_total _ _ ∅ Hall) as [d Hd].
    destruct (desired_run cf w) as (w' & _ & _ & _ & Hm). rewrite Hd in Hm.
    destruct Hm as (Hrun & Hheap & _). exists w'. rewrite Hheap.
    split_and!; [done| |].
    + intros before tid host after Hrules Hlast.
      rewrite (desired_after_lookup _ _ _ _ host Hd), Hrules.
      rewrite (last_tunnel_after _ _ _ _ Hlast).
      rewrite Forall_forall in Hall. destruct (Hall (tid, host)) as [zid Hz].
      { rewrite Hrules. apply in_elt. }
      simpl in Hz. exists zid. by rewrite Hz.
    + intros host Hnot.
      rewrite (desired_after_lookup _ _ _ _ host Hd).
      by rewrite (last_tunnel_none _ _ Hnot), lookup_empty.
Qed.

(** A witness for C7: the dict built for [Ex.cf], where the rule of the
    second tunnel wins. *)
Lemma desired_record_construction_witness :
  (desired Ex.cf (start [])).1 = inr 0%nat
  ∧ heap (desired Ex.cf (start [])).2 0%nat !! "a.example.com"
    = Some (mkRecord None "Z1" "CNAME" "T1.cfargotunnel.com" true true 1).
Proof.
  assert (Hrules : ingress_rules Ex.cf
                   = [("T0", "a.example.com"); ("T1", "a.example.com")])
    by (vm_compute; reflexivity).
  assert (Hall : Forall (resolvable (zones Ex.cf)) (ingress_rules Ex.cf)).
  { rewrite Hrules. repeat constructor; exists "Z1"; vm_compute; reflexivity. }
  destruct (desired_record_construction Ex.cf (start []) Hall)
    as (_ & _ & _ & w' & Hrun & Hlast & _).
  rewrite Hrun. split; [reflexivity|].
  destruct (Hlast [("T0", "a.example.com")] "T1" "a.example.com" [])
    as (zid & Hz & Hrec).
  - exact Hrules.
  - intros tid' []%elem_of_nil.
  - simpl in Hrec |- *. rewrite Hrec. vm_compute in Hz. by injection Hz as <-.
Defined.

(** C8. Batch disjointness: the keys of the create, update and delete
    batches lie in desired minus current, in the intersection and in
    current minus desired, so they are pairwise disjoint; running [create],
    [update] or [delete] leaves every dict object of the heap, the two
    argument dicts among them, as it was. *)
Theorem batches_disjoint (d c : gmap string Record) :
  dom (create_records d c) ⊆ dom d ∖ dom c
  ∧ dom (update_records d c) ⊆ dom d ∩ dom c
  ∧ dom (delete_records d c) ⊆ dom c ∖ dom d
  ∧ dom (create_records d c) ## dom (update_records d c)
  ∧ dom (create_records d c) ## dom (delete_records d c)
  ∧ dom (update_records d c) ## dom (delete_records d c)
  ∧ (∀ ld lc prompt w,
       heap (create ld lc prompt w).2 = heap w
       ∧ heap (update ld lc prompt w).2 = heap w
       ∧ heap (delete ld lc prompt w).2 = heap w).
Proof.
  pose proof (create_records_dom d c) as Hc.
  pose proof (update_records_dom d c) as Hu.
  pose proof (delete_records_dom d c) as Hd.
  split_and!.
  - by rewrite Hc.
  - done.
  - done.
  - intros k Hk1 Hk2. rewrite Hc in Hk1. apply Hu in Hk2.
    apply elem_of_difference in Hk1 as [_ Hout].
    by apply elem_of_intersection in Hk2 as [_ Hin].
  - intros k Hk1 Hk2. rewrite Hc in Hk1. apply Hd in Hk2.
    apply elem_of_difference in Hk1 as [Hin _].
    by apply elem_of_difference in Hk2 as [_ Hout].
  - intros k Hk1 Hk2. apply Hu in Hk1. apply Hd in Hk2.
    apply elem_of_intersection in Hk1 as [Hin _].
    by apply elem_of_difference in Hk2 as [_ Hout].
  - intros ld lc prompt w.
    rewrite create_run, update_run, delete_run. by rewrite !gated_heap.
Qed.

(** C9. Single-label hostname: the apex of a hostname without a dot is the
    empty string, so [desired] asks for the zone named [""]; when no zone
    has that name the lookup raises the zone-not-found [ValueError] and
    [desired] fails (with that very error when no earlier rule fails), and
    when some zone has that name the lookup returns the id of such a zone. *)
Theorem single_label_hostname cf w tid host :
  "."%char ∉ list_ascii_of_string host →
  (tid, host) ∈ ingress_rules cf →
  apex host = ""
  ∧ ((∀ zone, zone ∈ zones cf → z_name zone ≠ "") →
     zone_name_to_id cf (apex host) w = (inl (ValueError "zone  not found"), w)
     ∧ ∃ name w',
         desired cf w = (inl (ValueError ("zone " +:+ name +:+ " not found")), w')
         ∧ calls w' = calls w
         ∧ (∀ before after,
              ingress_rules cf = before ++ (tid, host) :: after →
              Forall (resolvable (zones cf)) before → name = ""))
  ∧ (∀ zone, zone ∈ zones cf → z_name zone = "" →
     ∃ zone',
       zone' ∈ zones cf ∧ z_name zone' = "" ∧
       zone_name_to_id cf (apex host) w = (inr (z_id zone'), w)).
Proof.
  intros Hdot Hin. pose proof (apex_no_dot host Hdot) as Hapex.
  split_and!; [done| |].
  - intros Hno. apply find_zone_None in Hno. rewrite Hapex. split.
    + by rewrite zone_name_to_id_run, Hno.
    + rewrite <- Hapex in Hno.
      destruct (unresolved_rule_fails (zones cf) _ _ _ ∅ Hin Hno) as [name Hf].
      destruct (desired_run cf w) as (w' & Hc & _ & _ & Hm). rewrite Hf in Hm.
      exists name, w'. split_and!; [done|done|].
      intros before after Hrules Hall.
      rewrite Hrules, (desired_after_first _ _ _ _ _ _ Hall Hno) in Hf.
      congruence.
  - intros zone Hz Hname. rewrite Hapex, zone_name_to_id_run.
    destruct (find_zone (zones cf) "") as [zid|] eqn:E.
    + apply find_zone_Some in E as (zone' & Hin' & Hn' & <-). by exists zone'.
    + rewrite find_zone_None in E. by destruct (E zone Hz).
Qed.

(** A witness for C9: the hostname [localhost] and no zone named [""]. *)
Lemma single_label_hostname_witness :
  apex "localhost" = ""
  ∧ (desired Ex.cf_single (start [])).1 = inl (ValueError "zone  not found").
Proof.
  assert (Hdot : "."%char ∉ list_ascii_of_string "localhost").
  { vm_compute. intros Hin. repeat (apply elem_of_cons in Hin as [Hin|Hin];
      [discriminate|]). by apply elem_of_nil in Hin. }
  assert (Hin : ("T1", "localhost") ∈ ingress_rules Ex.cf_single)
    by (vm_compute; left).
  destruct (single_label_hostname Ex.cf_single (start []) _ _ Hdot Hin)
    as (Hapex & Hfail & _).
  split; [exact Hapex|].
  destruct Hfail as (_ & name & w' & Hrun & _ & Hname).
  { intros zone [->|[]%elem_of_nil]%elem_of_cons. vm_compute. discriminate. }
  rewrite Hrun. simpl. rewrite (Hname [] []); [done| |constructor].
  vm_compute. reflexivity.
Defined.

(** C10. Update addressing: a record of the update batch has the desired
    record's zone id and the current record's id, so the patch call for its
    hostname is addressed to the desired record's zone, whatever zone the
    current record is in; every patch call [update] issues has this form,
    and for a desired dict built by [desired] that zone is the one the
    hostname's apex resolves to. *)
Theorem update_patch_addressing (ld lc : ref) (w : World) k r :
  update_records (heap w ld) (heap w lc) !! k = Some r →
  let records := update_records (heap w ld) (heap w lc) in
  let patches :=
    (λ item : string * Record,
       Patch (zone_id item.2) (id item.2) (data item.1 item.2))
    <$> map_to_list records in
  ∃ dr cr,
    heap w ld !! k = Some dr ∧ heap w lc !! k = Some cr
    ∧ zone_id r = zone_id dr ∧ id r = id cr
    ∧ update ld lc false w = (inr tt, add_calls w patches)
    ∧ (∀ rest, stdin w = "y" :: rest →
         update ld lc true w = (inr tt, add_calls (with_stdin w rest) patches))
    ∧ Patch (zone_id dr) (id cr)
            (mkData k (type dr) (content dr) (proxiable dr) (proxied dr)
                    (ttl dr)) ∈ patches
    ∧ (∀ call, call ∈ patches →
         ∃ k' dr' cr',
           heap w ld !! k' = Some dr' ∧ heap w lc !! k' = Some cr' ∧
           call = Patch (zone_id dr') (id cr')
                        (mkData k' (type dr') (content dr') (proxiable dr')
                                (proxied dr') (ttl dr')))
    ∧ (∀ cf, desired_after (zones cf) (ingress_rules cf) ∅ = inr (heap w ld) →
         find_zone (zones cf) (apex k) = Some (zone_id r)).
Proof.
  intros Hk records patches.
  assert (Hsize : bool_decide (size records = 0%nat) = false).
  { apply bool_decide_eq_false_2. intros Hz%map_size_empty_iff.
    subst records. rewrite Hz in Hk. by rewrite lookup_empty in Hk. }
  pose proof Hk as Hk'. rewrite update_records_lookup in Hk'.
  destruct (heap w ld !! k) as [dr|] eqn:Hd; [|done].
  destruct (heap w lc !! k) as [cr|] eqn:Hc; [|done].
  destruct (Record_ne (truedesire dr cr) cr); [|done].
  injection Hk' as <-. exists dr, cr. split_and!; try done.
  - rewrite update_run. unfold gated. fold records. by rewrite Hsize.
  - intros rest Hin. rewrite update_run. unfold gated. fold records.
    by rewrite Hsize, Hin.
  - apply list_elem_of_fmap. exists (k, truedesire dr cr).
    split; [done|]. by apply elem_of_map_to_list.
  - intros call [[k' r'] [-> Hin%elem_of_map_to_list]]%list_elem_of_fmap.
    subst records. rewrite update_records_lookup in Hin.
    destruct (heap w ld !! k') as [dr'|] eqn:Hd'; [|done].
    destruct (heap w lc !! k') as [cr'|] eqn:Hc'; [|done].
    destruct (Record_ne (truedesire dr' cr') cr'); [|done].
    injection Hin as <-. by exists k', dr', cr'.
  - intros cf Hbuilt. change (zone_id (truedesire dr cr)) with (zone_id dr).
    by apply (desired_after_zone _ _ _ _ _ Hbuilt).
Qed.

(** A witness for C10: the current record is in zone Z2, the desired one in
    Z1, and the patch goes to Z1. *)
Lemma update_patch_addressing_witness :
  zone_id Ex.current_a_z2 = "Z2"
  ∧ calls (update 0%nat 1%nat false
             (Ex.world (Ex.only "a.example.com" Ex.desired_a)
                       (Ex.only "a.example.com" Ex.current_a_z2) [])).2
    = [Patch "Z1" (Some "rec1")
             (mkData "a.example.com" "CNAME" "T1.cfargotunnel.com" true true 1)].
Proof.
  split; [reflexivity|].
  assert (Hk : update_records
                 (heap (Ex.world (Ex.only "a.example.com" Ex.desired_a)
                          (Ex.only "a.example.com" Ex.current_a_z2) []) 0%nat)
                 (heap (Ex.world (Ex.only "a.example.com" Ex.desired_a)
                          (Ex.only "a.example.com" Ex.current_a_z2) []) 1%nat)
               !! "a.example.com"
               = Some (mkRecord (Some "rec1") "Z1" "CNAME"
                                "T1.cfargotunnel.com" true true 1))
    by (vm_compute; reflexivity).
  destruct (update_patch_addressing _ _ _ _ _ Hk)
    as (dr & cr & _ & _ & _ & _ & Hrun & _).
  rewrite Hrun. vm_compute. reflexivity.
Defined.

(** ** Further properties of the program *)

Lemma find_zone_first before zone after :
  (∀ z, z ∈ before → z_name z ≠ z_name zone) →
  find_zone (before ++ zone :: after) (z_name zone) = Some (z_id zone).
Proof.
  intros Hnot. unfold find_zone.
  induction before as [|z before IH]; simpl.
  - by rewrite String.eqb_refl.
  - destruct (String.eqb_spec (z_name z) (z_name zone)) as [Heq|_].
    + exfalso. apply (Hnot z); [left|done].
    + apply IH. intros z' Hin. apply Hnot. by right.
Qed.

(** X1. [zone_name_to_id] returns the id of the first zone of [zones()]
    with the given name and leaves the world alone: a later zone with the
    same name is never chosen. *)
Theorem zone_name_to_id_first_match cf w before zone after :
  zones cf = before ++ zone :: after →
  (∀ z, z ∈ before → z_name z ≠ z_name zone) →
  zone_name_to_id cf (z_name zone) w = (inr (z_id zone), w).
Proof.
  intros Hzones Hnot.
  by rewrite zone_name_to_id_run, Hzones, (find_zone_first _ _ _ Hnot).
Qed.

Lemma zone_name_to_id_first_match_witness :
  zone_name_to_id Ex2.cf_two_zones "example.com" (start [])
  = (inr "Z1", start []).
Proof.
  apply (zone_name_to_id_first_match Ex2.cf_two_zones (start []) []
           (mkZone "Z1" "example.com") [mkZone "Z9" "example.com"]).
  - reflexivity.
  - intros z []%elem_of_nil.
Defined.

Lemma current_after_app records1 records2 acc :
  current_after (records1 ++ records2) acc
  = current_after records2 (current_after records1 acc).
Proof. unfold current_after. apply foldl_app. Qed.

Lemma current_after_other records acc name :
  (∀ r, r ∈ records → r_name r ≠ name) →
  current_after records acc !! name = acc !! name.
Proof.
  revert acc. induction records as [|record rest IH]; intros acc Hnot; [done|].
  change (current_after (record :: rest) acc)
    with (current_after rest (<[r_name record := current_record record]> acc)).
  rewrite IH by (intros r Hin; apply Hnot; by right).
  apply lookup_insert_ne. apply Hnot. left.
Qed.

Lemma current_after_last before record after acc :
  (∀ r, r ∈ after → r_name r ≠ r_name record) →
  current_after (before ++ record :: after) acc !! r_name record
  = Some (current_record record).
Proof.
  intros Hnot. rewrite current_after_app.
  change (current_after (record :: after) ?a)
    with (current_after after (<[r_name record := current_record record]> a)).
  rewrite (current_after_other _ _ _ Hnot). apply lookup_insert_eq.
Qed.

Lemma current_after_origin records acc name r :
  current_after records acc !! name = Some r →
  acc !! name = Some r
  ∨ ∃ record, record ∈ records ∧ r_name record = name ∧
              r = current_record record.
Proof.
  revert acc. induction records as [|record rest IH]; intros acc; [by left|].
  change (current_after (record :: rest) acc)
    with (current_after rest (<[r_name record := current_record record]> acc)).
  intros [Hacc|(record' & Hin & Hn & Hr)]%IH.
  - destruct (decide (r_name record = name)) as [Heq|Hne].
    + rewrite Heq, lookup_insert_eq in Hacc. injection Hacc as <-.
      right. exists record. split; [left|done].
    + rewrite lookup_insert_ne in Hacc by done. by left.
  - right. exists record'. split; [by right|done].
Qed.

(** X2. [current] never raises; for a name listed more than once, in one
    zone or across zones, the dict keeps the record listed last, with the
    provider's id, zone id, type, content, proxiable, proxied and ttl; a
    name that is not listed is not a key. *)
Theorem current_last_record_wins cf w :
  ∃ w',
    current cf w = (inr (next_ref w), w')
    ∧ (∀ before record after,
         listed_records cf = before ++ record :: after →
         (∀ r, r ∈ after → r_name r ≠ r_name record) →
         heap w' (next_ref w) !! r_name record
         = Some (mkRecord (Some (r_id record)) (r_zone_id record)
                          (r_type record) (r_content record)
                          (r_proxiable record) (r_proxied record)
                          (r_ttl record)))
    ∧ (∀ name,
         (∀ r, r ∈ listed_records cf → r_name r ≠ name) →
         heap w' (next_ref w) !! name = None).
Proof.
  destruct (current_run cf w) as (w' & Hrun & _ & _ & _ & _ & Hd).
  exists w'. rewrite Hd. split_and!; [done| |].
  - intros before record after -> Hnot. by apply current_after_last.
  - intros name Hnot. by rewrite (current_after_other _ _ _ Hnot).
Qed.

Lemma current_last_record_wins_witness :
  heap (current Ex2.cf_two_records (start [])).2 0%nat !! "a.example.com"
  = Some (mkRecord (Some "rec2") "Z2" "CNAME" "T1.cfargotunnel.com" true true 1).
Proof.
  destruct (current_last_record_wins Ex2.cf_two_records (start []))
    as (w' & Hrun & Hlast & _).
  rewrite Hrun.
  apply (Hlast [mkDnsRecord "rec1" "Z1" "A" "203.0.113.5" false false 300
                            "a.example.com"]
               (mkDnsRecord "rec2" "Z2" "CNAME" "T1.cfargotunnel.com" true
                            true 1 "a.example.com") []).
  - vm_compute. reflexivity.
  - intros r []%elem_of_nil.
Defined.

(** X3. The builders only allocate: [desired], whether it returns or
    raises, and [current] issue no mutation call, read no input and leave
    every dict object that existed before as it was. *)
Theorem builders_only_allocate cf w :
  calls (desired cf w).2 = calls w
  ∧ stdin (desired cf w).2 = stdin w
  ∧ (∀ l, l ≠ next_ref w → heap (desired cf w).2 l = heap w l)
  ∧ calls (current cf w).2 = calls w
  ∧ stdin (current cf w).2 = stdin w
  ∧ (∀ l, l ≠ next_ref w → heap (current cf w).2 l = heap w l).
Proof.
  destruct (desired_run cf w) as (w1 & Hc1 & Hs1 & Hh1 & Hm).
  assert (Hw1 : (desired cf w).2 = w1).
  { destruct (desired_after _ _ _); [by rewrite Hm|].
    destruct Hm as [-> _]. done. }
  destruct (current_run cf w) as (w2 & Hrun & _ & Hs2 & Hc2 & Hh2 & _).
  rewrite Hw1, Hrun. by split_and!.
Qed.

Lemma builders_only_allocate_witness :
  heap (desired Ex.cf_unknown
          (Ex.world (Ex.only "a.example.com" Ex.desired_a) ∅ ["y"])).2 0%nat
  = Ex.only "a.example.com" Ex.desired_a
  ∧ stdin (desired Ex.cf_unknown
             (Ex.world (Ex.only "a.example.com" Ex.desired_a) ∅ ["y"])).2
    = ["y"].
Proof.
  destruct (builders_only_allocate Ex.cf_unknown
              (Ex.world (Ex.only "a.example.com" Ex.desired_a) ∅ ["y"]))
    as (_ & Hs & Hh & _).
  split; [|exact Hs]. rewrite Hh; [reflexivity|]. simpl. lia.
Defined.

Lemma ingress_rules_elem cf tid host :
  (tid, host) ∈ ingress_rules cf ↔
  ∃ tunnel,
    tunnel ∈ tunnels cf ∧ t_id tunnel = tid ∧
    mkIngress (Some host) ∈ cfd_tunnel_configurations cf (t_id tunnel).
Proof.
  unfold ingress_rules, tunnel_rules, rules_of.
  rewrite list_elem_of_bind. split.
  - intros (tunnel & (elem & Hin & Heq)%list_elem_of_omap & Ht).
    destruct elem as [[h|]]; simpl in Heq; [|done].
    injection Heq as <- <-. by exists tunnel.
  - intros (tunnel & Ht & <- & Hin). exists tunnel. split; [|done].
    apply list_elem_of_omap. by exists (mkIngress (Some host)).
Qed.

(** X4. Every record of a dict returned by [desired] is a proxied tunnel
    CNAME: no id, type CNAME, proxiable and proxied, ttl 1, a content
    that is the id of an active tunnel with a rule for the hostname followed
    by the tunnel suffix, and the id of a listed zone named after the
    hostname's apex. *)
Theorem desired_records_are_tunnel_cnames cf w l w' host r :
  desired cf w = (inr l, w') →
  heap w' l !! host = Some r →
  id r = None ∧ type r = "CNAME" ∧ proxiable r = true ∧ proxied r = true
  ∧ ttl r = 1
  ∧ Str.endswith (content r) ".cfargotunnel.com" = true
  ∧ (∃ tunnel,
       tunnel ∈ tunnels cf ∧
       mkIngress (Some host) ∈ cfd_tunnel_configurations cf (t_id tunnel) ∧
       content r = t_id tunnel +:+ ".cfargotunnel.com")
  ∧ (∃ zone,
       zone ∈ zones cf ∧ z_name zone = apex host ∧ z_id zone = zone_id r).
Proof.
  intros (_ & _ & _ & _ & Hbuilt)%desired_returns Hr.
  rewrite (desired_after_lookup _ _ _ _ host Hbuilt), lookup_empty in Hr.
  destruct (last_tunnel (ingress_rules cf) host) as [tid|] eqn:Hlast; [|done].
  destruct (find_zone (zones cf) (apex host)) as [zid|] eqn:Hz; [|done].
  injection Hr as <-. simpl. split_and!; try done.
  - apply endswith_spec. by exists tid.
  - apply last_tunnel_elem, ingress_rules_elem in Hlast
      as (tunnel & Hin & <- & Hrule). by exists tunnel.
  - apply find_zone_Some in Hz as (zone & Hin & Hn & Hi). by exists zone.
Qed.

Lemma desired_records_are_tunnel_cnames_witness :
  content Ex.desired_a = "T1.cfargotunnel.com"
  ∧ Str.endswith (content Ex.desired_a) ".cfargotunnel.com" = true.
Proof.
  assert (Hrun : desired Ex.cf (start [])
                 = (inr 0%nat, (desired Ex.cf (start [])).2))
    by (vm_compute; reflexivity).
  assert (Hr : heap (desired Ex.cf (start [])).2 0%nat !! "a.example.com"
               = Some Ex.desired_a) by (vm_compute; reflexivity).
  destruct (desired_records_are_tunnel_cnames _ _ _ _ _ _ Hrun Hr)
    as (_ & _ & _ & _ & _ & Hend & _).
  split; [reflexivity|exact Hend].
Defined.

Lemma gated_empty records call applies prompt w :
  records = ∅ → gated records call applies prompt w = (inr tt, w).
Proof. intros ->. unfold gated. by rewrite map_size_empty. Qed.

Lemma gated_nonempty records call applies prompt w :
  records ≠ ∅ →
  gated records call applies prompt w
  = if prompt then
      match stdin w with
      | [] => (inl EOFError, w)
      | line :: rest =>
          if applies line
          then (inr tt, add_calls (with_stdin w rest) (call <$> map_to_list records))
          else (inr tt, with_stdin w rest)
      end
    else (inr tt, add_calls w (call <$> map_to_list records)).
Proof.
  intros Hne. unfold gated.
  by rewrite bool_decide_eq_false_2 by (by intros ?%map_size_empty_iff).
Qed.

Lemma gated_no_prompt records call applies w :
  gated records call applies false w
  = (inr tt, add_calls w (call <$> map_to_list records)).
Proof.
  destruct (decide (records = ∅)) as [->|Hne].
  - by rewrite gated_empty, map_to_list_empty, add_calls_nil.
  - by rewrite gated_nonempty.
Qed.

Lemma size_dom_map_to_list (m : gmap string Record) :
  length (map_to_list m) = size (dom m).
Proof. by rewrite size_dom, length_map_to_list. Qed.

(** X5. Without the prompt [create] returns after posting exactly one
    record per hostname of desired minus current: the call goes to the
    desired record's zone and carries the hostname as name and the record's
    type, content, proxiable, proxied and ttl.  With the prompt and the
    answer ["y"] a non-empty batch is posted in the same way. *)
Theorem create_posts_desired_records (ld lc : ref) (w : World) :
  let d := heap w ld in
  let c := heap w lc in
  let posts :=
    (λ item : string * Record, Post (zone_id item.2) (data item.1 item.2))
    <$> map_to_list (create_records d c) in
  create ld lc false w = (inr tt, add_calls w posts)
  ∧ (∀ rest,
       stdin w = "y" :: rest → create_records d c ≠ ∅ →
       create ld lc true w = (inr tt, add_calls (with_stdin w rest) posts))
  ∧ length posts = size (dom d ∖ dom c)
  ∧ (∀ call,
       call ∈ posts ↔
       ∃ k dr,
         d !! k = Some dr ∧ c !! k = None ∧
         call = Post (zone_id dr)
                     (mkData k (type dr) (content dr) (proxiable dr)
                             (proxied dr) (ttl dr))).
Proof.
  intros d c posts. split_and!.
  - rewrite create_run. apply gated_no_prompt.
  - intros rest Hin Hne. rewrite create_run, gated_nonempty by done.
    by rewrite Hin.
  - subst posts. by rewrite length_fmap, size_dom_map_to_list, create_records_dom.
  - intros call. subst posts. rewrite list_elem_of_fmap. split.
    + intros ([k r] & -> & Hin%elem_of_map_to_list).
      rewrite create_records_lookup in Hin. exists k, r.
      by destruct (c !! k).
    + intros (k & dr & Hd & Hc & ->). exists (k, dr). split; [done|].
      apply elem_of_map_to_list. by rewrite create_records_lookup, Hc.
Qed.

Lemma create_posts_desired_records_witness :
  create 0%nat 1%nat true
    (Ex.world (Ex.only "a.example.com" Ex.desired_a) ∅ ["y"; "n"])
  = (inr tt,
     add_calls (Ex.world (Ex.only "a.example.com" Ex.desired_a) ∅ ["n"])
       [Post "Z1" (mkData "a.example.com" "CNAME" "T1.cfargotunnel.com" true
                          true 1)]).
Proof.
  destruct (create_posts_desired_records 0%nat 1%nat
              (Ex.world (Ex.only "a.example.com" Ex.desired_a) ∅ ["y"; "n"]))
    as (_ & Hyes & _).
  rewrite (Hyes ["n"]).
  - vm_compute. reflexivity.
  - reflexivity.
  - intros Hempty. apply (f_equal (λ m, m !! "a.example.com")) in Hempty.
    vm_compute in Hempty. discriminate.
Defined.

(** X6. Without the prompt [delete] returns after issuing exactly one
    delete call per hostname of its batch, addressed by the zone id and the
    id of the current record; the hostnames are those of current that are
    not in desired and end with the tunnel suffix. *)
Theorem delete_calls_current_records (ld lc : ref) (w : World) :
  let d := heap w ld in
  let c := heap w lc in
  let deletes :=
    (λ item : string * Record, Delete (zone_id item.2) (id item.2))
    <$> map_to_list (delete_records d c) in
  delete ld lc false w = (inr tt, add_calls w deletes)
  ∧ length deletes = size (dom (delete_records d c))
  ∧ (∀ call,
       call ∈ deletes ↔
       ∃ k cr,
         c !! k = Some cr ∧ d !! k = None ∧
         Str.endswith k ".cfargotunnel.com" = true ∧
         call = Delete (zone_id cr) (id cr)).
Proof.
  intros d c deletes. split_and!.
  - rewrite delete_run. apply gated_no_prompt.
  - subst deletes. by rewrite length_fmap, size_dom_map_to_list.
  - intros call. subst deletes. rewrite list_elem_of_fmap. split.
    + intros ([k r] & -> & Hin%elem_of_map_to_list).
      rewrite delete_records_lookup in Hin. exists k, r.
      destruct (Str.endswith k ".cfargotunnel.com"); [|done].
      by destruct (d !! k).
    + intros (k & cr & Hc & Hd & Hend & ->). exists (k, cr). split; [done|].
      apply elem_of_map_to_list. by rewrite delete_records_lookup, Hend, Hd.
Qed.

Lemma delete_calls_current_records_witness :
  delete 0%nat 1%nat false
    (Ex.world ∅ (Ex.only "old.cfargotunnel.com" Ex.current_b) [])
  = (inr tt,
     add_calls (Ex.world ∅ (Ex.only "old.cfargotunnel.com" Ex.current_b) [])
       [Delete "Z1" (Some "rec2")]).
Proof.
  destruct (delete_calls_current_records 0%nat 1%nat
              (Ex.world ∅ (Ex.only "old.cfargotunnel.com" Ex.current_b) []))
    as (Hrun & _).
  rewrite Hrun. vm_compute. reflexivity.
Defined.

(** X7. The gate of [create] and [update]: for a non-empty batch and
    [prompt] set, one line is read; the batch is applied only when the line
    is exactly ["y"], and for every other line the function returns
    normally with no call issued. *)
Theorem create_update_gate (ld lc : ref) (w : World) line rest :
  stdin w = line :: rest →
  let d := heap w ld in
  let c := heap w lc in
  (create_records d c ≠ ∅ →
   create ld lc true w
   = (inr tt,
      if String.eqb line "y"
      then add_calls (with_stdin w rest)
             ((λ item : string * Record,
                 Post (zone_id item.2) (data item.1 item.2))
              <$> map_to_list (create_records d c))
      else with_stdin w rest))
  ∧ (update_records d c ≠ ∅ →
     update ld lc true w
     = (inr tt,
        if String.eqb line "y"
        then add_calls (with_stdin w rest)
               ((λ item : string * Record,
                   Patch (zone_id item.2) (id item.2) (data item.1 item.2))
                <$> map_to_list (update_records d c))
        else with_stdin w rest)).
Proof.
  intros Hin d c. split; intros Hne.
  - rewrite create_run, gated_nonempty by done. rewrite Hin.
    by destruct (String.eqb line "y").
  - rewrite update_run, gated_nonempty by done. rewrite Hin.
    by destruct (String.eqb line "y").
Qed.

Lemma create_update_gate_witness :
  create 0%nat 1%nat true
    (Ex.world (Ex.only "a.example.com" Ex.desired_a) ∅ ["Y"])
  = (inr tt, Ex.world (Ex.only "a.example.com" Ex.desired_a) ∅ []).
Proof.
  destruct (create_update_gate 0%nat 1%nat
              (Ex.world (Ex.only "a.example.com" Ex.desired_a) ∅ ["Y"])
              "Y" [] eq_refl) as [Hcreate _].
  rewrite Hcreate; [reflexivity|].
  intros Hempty. apply (f_equal (λ m, m !! "a.example.com")) in Hempty.
  vm_compute in Hempty. discriminate.
Defined.

(** X8. End of input at a prompt: with [prompt] set, a non-empty batch and
    no line left to read, each of [create], [update] and [delete] raises
    [EOFError] and leaves the world as it was, no call issued. *)
Theorem prompt_at_end_of_input (ld lc : ref) (w : World) :
  stdin w = [] →
  let d := heap w ld in
  let c := heap w lc in
  (create_records d c ≠ ∅ → create ld lc true w = (inl EOFError, w))
  ∧ (update_records d c ≠ ∅ → update ld lc true w = (inl EOFError, w))
  ∧ (delete_records d c ≠ ∅ → delete ld lc true w = (inl EOFError, w)).
Proof.
  intros Hin d c. split_and!; intros Hne.
  - rewrite create_run, gated_nonempty by done. by rewrite Hin.
  - rewrite update_run, gated_nonempty by done. by rewrite Hin.
  - rewrite delete_run, gated_nonempty by done. by rewrite Hin.
Qed.

Lemma prompt_at_end_of_input_witness :
  update 0%nat 1%nat true
    (Ex.world (Ex.only "a.example.com" Ex.desired_a2)
              (Ex.only "a.example.com" Ex.current_a) [])
  = (inl EOFError,
     Ex.world (Ex.only "a.example.com" Ex.desired_a2)
              (Ex.only "a.example.com" Ex.current_a) []).
Proof.
  destruct (prompt_at_end_of_input 0%nat 1%nat
              (Ex.world (Ex.only "a.example.com" Ex.desired_a2)
                        (Ex.only "a.example.com" Ex.current_a) []) eq_refl)
    as (_ & Hupdate & _).
  apply Hupdate.
  intros Hempty. apply (f_equal (λ m, m !! "a.example.com")) in Hempty.
  vm_compute in Hempty. discriminate.
Defined.

(** X9. An empty batch asks nothing: when its batch is empty each of
    [create], [update] and [delete] returns at once, whatever [prompt] is,
    with no line read and no call issued. *)
Theorem empty_batch_is_silent (ld lc : ref) (prompt : bool) (w : World) :
  let d := heap w ld in
  let c := heap w lc in
  (dom d ⊆ dom c → create ld lc prompt w = (inr tt, w))
  ∧ ((∀ k dr cr, d !! k = Some dr → c !! k = Some cr → truedesire dr cr = cr) →
     update ld lc prompt w = (inr tt, w))
  ∧ ((∀ k, k ∈ dom c → k ∉ dom d → Str.endswith k ".cfargotunnel.com" = false) →
     delete ld lc prompt w = (inr tt, w)).
Proof.
  intros d c. subst d c. split_and!.
  - intros Hsub. rewrite create_run. apply gated_empty.
    apply map_eq. intros k. rewrite create_records_lookup, lookup_empty.
    destruct (heap w lc !! k) eqn:Hc; [done|].
    apply not_elem_of_dom. intros Hd. apply Hsub in Hd.
    by apply not_elem_of_dom in Hc.
  - intros Hsame. rewrite update_run. apply gated_empty.
    apply map_eq. intros k. rewrite update_records_lookup, lookup_empty.
    destruct (heap w ld !! k) as [dr|] eqn:Hd; [|done].
    destruct (heap w lc !! k) as [cr|] eqn:Hc; [|done].
    by rewrite (proj2 (Record_ne_false _ _) (Hsame k dr cr Hd Hc)).
  - intros Hkeep. rewrite delete_run. apply gated_empty.
    apply map_eq. intros k. rewrite delete_records_lookup, lookup_empty.
    destruct (Str.endswith k ".cfargotunnel.com") eqn:Hend; [|done].
    destruct (heap w ld !! k) eqn:Hd; [done|].
    destruct (heap w lc !! k) eqn:Hc; [|done].
    rewrite Hkeep in Hend; [done| |].
    + by apply elem_of_dom.
    + by apply not_elem_of_dom.
Qed.

Lemma empty_batch_is_silent_witness :
  update 0%nat 1%nat true
    (Ex.world (Ex.only "a.example.com" Ex.desired_a)
              (Ex.only "a.example.com" Ex.current_a) [])
  = (inr tt,
     Ex.world (Ex.only "a.example.com" Ex.desired_a)
              (Ex.only "a.example.com" Ex.current_a) []).
Proof.
  destruct (empty_batch_is_silent 0%nat 1%nat true
              (Ex.world (Ex.only "a.example.com" Ex.desired_a)
                        (Ex.only "a.example.com" Ex.current_a) []))
    as (_ & Hupdate & _).
  apply Hupdate. intros k dr cr Hd Hc. simpl in Hd, Hc. unfold Ex.only in *.
  apply lookup_singleton_Some in Hd as [<- <-].
  apply lookup_singleton_Some in Hc as [_ <-]. reflexivity.
Defined.

(** X10. Every hostname of the desired dict is in exactly one state: to
    create (not in current; the batch holds the desired record), to update
    (in current, and the desired record under the current id differs from
    the current record; the batch holds that record), or in sync (in
    neither batch); it is never in the delete batch. *)
Theorem desired_hostname_states (d c : gmap string Record) k dr :
  d !! k = Some dr →
  delete_records d c !! k = None
  ∧ ((c !! k = None ∧ create_records d c !! k = Some dr
      ∧ update_records d c !! k = None)
     ∨ (∃ cr, c !! k = Some cr ∧ truedesire dr cr ≠ cr
              ∧ create_records d c !! k = None
              ∧ update_records d c !! k = Some (truedesire dr cr))
     ∨ (∃ cr, c !! k = Some cr ∧ truedesire dr cr = cr
              ∧ create_records d c !! k = None
              ∧ update_records d c !! k = None)).
Proof.
  intros Hd.
  rewrite delete_records_lookup, create_records_lookup, update_records_lookup.
  rewrite Hd. split; [by destruct (Str.endswith k _)|].
  destruct (c !! k) as [cr|]; [|by left].
  right. destruct (Record_ne (truedesire dr cr) cr) eqn:Hne.
  - left. exists cr. by apply Record_ne_true in Hne.
  - right. exists cr. by apply Record_ne_false in Hne.
Qed.

Lemma desired_hostname_states_witness :
  create_records (Ex.only "a.example.com" Ex.desired_a2)
                 (Ex.only "a.example.com" Ex.current_a) !! "a.example.com"
  = None
  ∧ delete_records (Ex.only "a.example.com" Ex.desired_a2)
                   (Ex.only "a.example.com" Ex.current_a) !! "a.example.com"
    = None.
Proof.
  assert (Hd : Ex.only "a.example.com" Ex.desired_a2 !! "a.example.com"
               = Some Ex.desired_a2) by (vm_compute; reflexivity).
  destruct (desired_hostname_states _ (Ex.only "a.example.com" Ex.current_a)
              _ _ Hd) as [Hdel Hstate].
  split; [|exact Hdel].
  destruct Hstate as [(Hc & _)|[(cr & _ & _ & Hcreate & _)|(cr & _ & _ & Hcreate & _)]].
  - vm_compute in Hc. discriminate.
  - exact Hcreate.
  - exact Hcreate.
Defined.

Lemma batches_local (d c c' : gmap string Record) k :
  c' !! k = c !! k →
  create_records d c' !! k = create_records d c !! k
  ∧ update_records d c' !! k = update_records d c !! k
  ∧ delete_records d c' !! k = delete_records d c !! k.
Proof.
  intros Hsame.
  rewrite !create_records_lookup, !update_records_lookup,
          !delete_records_lookup.
  by rewrite Hsame.
Qed.

(** X11. An applied entry is in sync at the next diff.  When the current
    dict is given the record of an update entry, or the record of a create
    entry under whatever id the provider assigns, or loses the record of a
    delete entry, the hostname is in none of the three batches computed
    against the new current dict, and the batches agree with the old ones
    at every other hostname. *)
Theorem applied_entry_is_in_sync (d c : gmap string Record) k r :
  (update_records d c !! k = Some r →
   create_records d (<[k := r]> c) !! k = None
   ∧ update_records d (<[k := r]> c) !! k = None
   ∧ delete_records d (<[k := r]> c) !! k = None)
  ∧ (create_records d c !! k = Some r →
     ∀ i,
       let listed :=
         mkRecord (Some i) (zone_id r) (type r) (content r) (proxiable r)
                  (proxied r) (ttl r) in
       create_records d (<[k := listed]> c) !! k = None
       ∧ update_records d (<[k := listed]> c) !! k = None
       ∧ delete_records d (<[k := listed]> c) !! k = None)
  ∧ (delete_records d c !! k = Some r →
     create_records d (base.delete k c) !! k = None
     ∧ update_records d (base.delete k c) !! k = None
     ∧ delete_records d (base.delete k c) !! k = None)
  ∧ (∀ k' r',
       k' ≠ k →
       create_records d (<[k := r']> c) !! k' = create_records d c !! k'
       ∧ update_records d (<[k := r']> c) !! k' = update_records d c !! k'
       ∧ delete_records d (<[k := r']> c) !! k' = delete_records d c !! k'
       ∧ create_records d (base.delete k c) !! k' = create_records d c !! k'
       ∧ update_records d (base.delete k c) !! k' = update_records d c !! k'
       ∧ delete_records d (base.delete k c) !! k' = delete_records d c !! k').
Proof.
  split_and!.
  - rewrite !create_records_lookup, !update_records_lookup,
            !delete_records_lookup, !lookup_insert_eq.
    destruct (d !! k) as [dr|]; [|done].
    destruct (c !! k) as [cr|]; [|done].
    destruct (Record_ne (truedesire dr cr) cr); [|done].
    intros [= <-]. split_and!; [done| |by destruct (Str.endswith k _)].
    by rewrite (proj2 (Record_ne_false (truedesire dr (truedesire dr cr))
                         (truedesire dr cr)) eq_refl).
  - rewrite !create_records_lookup. intros Hr i listed.
    rewrite !create_records_lookup, !update_records_lookup,
            !delete_records_lookup, !lookup_insert_eq.
    destruct (c !! k); [done|]. rewrite Hr.
    split_and!; [done| |by destruct (Str.endswith k _)].
    by rewrite (proj2 (Record_ne_false (truedesire r listed) listed) eq_refl).
  - rewrite !create_records_lookup, !update_records_lookup,
            !delete_records_lookup, !lookup_delete_eq.
    destruct (Str.endswith k _); [|done].
    destruct (d !! k) as [dr|]; [done|]. by intros _.
  - intros k' r' Hne.
    destruct (batches_local d c (<[k := r']> c) k') as (-> & -> & ->);
      [by apply lookup_insert_ne|].
    destruct (batches_local d c (base.delete k c) k') as (-> & -> & ->);
      [by apply lookup_delete_ne|].
    by split_and!.
Qed.

Lemma applied_entry_is_in_sync_witness :
  update_records (Ex.only "a.example.com" Ex.desired_a2)
    (<["a.example.com" :=
         mkRecord (Some "rec1") "Z1" "CNAME" "T2.cfargotunnel.com" true true 1]>
       (Ex.only "a.example.com" Ex.current_a)) !! "a.example.com"
  = None.
Proof.
  destruct (applied_entry_is_in_sync
              (Ex.only "a.example.com" Ex.desired_a2)
              (Ex.only "a.example.com" Ex.current_a) "a.example.com"
              (mkRecord (Some "rec1") "Z1" "CNAME" "T2.cfargotunnel.com" true
                        true 1)) as (Hupdate & _).
  apply Hupdate. vm_compute. reflexivity.
Defined.

(** ** Further properties of [process] *)

Lemma builders_run cf w :
  match desired_after (zones cf) (ingress_rules cf) ∅ with
  | inl name =>
      ∃ w', builders cf w = (inl (zone_not_found name), w') ∧
            (∀ prompt, process cf prompt w = (inl (zone_not_found name), w')) ∧
            calls w' = calls w
  | inr d =>
      ∃ w2,
        builders cf w = (inr (next_ref w, S (next_ref w)), w2) ∧
        heap w2 (next_ref w) = d ∧
        heap w2 (S (next_ref w)) = current_after (listed_records cf) ∅ ∧
        calls w2 = calls w ∧ stdin w2 = stdin w ∧
        ∀ prompt,
          process cf prompt w
          = (create (next_ref w) (S (next_ref w)) prompt;;
             update (next_ref w) (S (next_ref w)) prompt;;
             delete (next_ref w) (S (next_ref w)) prompt) w2
  end.
Proof.
  destruct (desired_run cf w) as (w1 & Hc & Hs & _ & Hm).
  destruct (desired_after (zones cf) (ingress_rules cf) ∅) as [name|d].
  - exists w1. split_and!; [|intros prompt|done].
    + unfold builders. run_step. by rewrite Hm.
    + unfold process. run_step. by rewrite Hm.
  - destruct Hm as (Hrun & Hd & Hn).
    destruct (current_run cf w1) as (w2 & Hrun2 & Hn2 & Hs2 & Hc2 & Hh2 & Hd2).
    rewrite Hn in *. exists w2. split_and!; try congruence.
    + unfold builders. run_step. rewrite Hrun. run_step. by rewrite Hrun2.
    + rewrite Hh2 by lia. done.
    + intros prompt. unfold process. run_step. rewrite Hrun. run_step.
      by rewrite Hrun2.
Qed.

Lemma add_calls_add_calls w cs1 cs2 :
  add_calls (add_calls w cs1) cs2 = add_calls w (cs1 ++ cs2).
Proof. unfold add_calls. simpl. by rewrite app_assoc. Qed.

Lemma apply_unattended ld lc w :
  (create ld lc false;; update ld lc false;; delete ld lc false) w
  = (inr tt,
     add_calls w
       ((post_call <$> map_to_list (create_records (heap w ld) (heap w lc)))
        ++ (patch_call <$> map_to_list (update_records (heap w ld) (heap w lc)))
        ++ (delete_call <$> map_to_list (delete_records (heap w ld) (heap w lc))))).
Proof.
  rewrite bind_run, create_run, gated_no_prompt. cbv beta iota.
  rewrite bind_run, update_run, gated_no_prompt. cbv beta iota.
  rewrite delete_run, gated_no_prompt.
  by rewrite !add_calls_add_calls.
Qed.

(** X12. An unattended run.  When every ingress apex resolves,
    [process(prompt=False)] returns normally without reading input, and the
    calls it adds to the trace are the posts of the create batch, then the
    patches of the update batch, then the deletes of the delete batch, all
    three computed from the dicts the two builders returned. *)
Theorem process_unattended cf w :
  Forall (resolvable (zones cf)) (ingress_rules cf) →
  ∃ _desired _current w2,
    builders cf w = (inr (_desired, _current), w2)
    ∧ calls w2 = calls w ∧ stdin w2 = stdin w
    ∧ let d := heap w2 _desired in
      let c := heap w2 _current in
      process cf false w
      = (inr tt,
         add_calls w2
           (((λ item : string * Record,
                Post (zone_id item.2) (data item.1 item.2))
             <$> map_to_list (create_records d c))
            ++ ((λ item : string * Record,
                   Patch (zone_id item.2) (id item.2) (data item.1 item.2))
                <$> map_to_list (update_records d c))
            ++ ((λ item : string * Record,
                   Delete (zone_id item.2) (id item.2))
                <$> map_to_list (delete_records d c)))).
Proof.
  intros Hall. destruct (desired_after_total _ _ ∅ Hall) as [d Hd].
  pose proof (builders_run cf w) as Hb. rewrite Hd in Hb.
  destruct Hb as (w2 & Hrun & _ & _ & Hc & Hs & Hp).
  exists (next_ref w), (S (next_ref w)), w2. split_and!; try done.
  intros d' c'. rewrite Hp. apply apply_unattended.
Qed.

Lemma process_unattended_witness :
  (process Ex2.cf_mixed false (start [])).1 = inr tt
  ∧ stdin (process Ex2.cf_mixed false (start [])).2 = []
  ∧ calls (process Ex2.cf_mixed false (start [])).2
    = [Post "Z1" (mkData "n.example.com" "CNAME" "T1.cfargotunnel.com" true
                         true 1);
       Patch "Z1" (Some "rec1")
             (mkData "a.example.com" "CNAME" "T1.cfargotunnel.com" true true 1)].
Proof.
  assert (Hrules : ingress_rules Ex2.cf_mixed
                   = [("T1", "a.example.com"); ("T1", "n.example.com")])
    by (vm_compute; reflexivity).
  assert (Hall : Forall (resolvable (zones Ex2.cf_mixed))
                        (ingress_rules Ex2.cf_mixed)).
  { rewrite Hrules. repeat constructor; exists "Z1"; vm_compute; reflexivity. }
  destruct (process_unattended Ex2.cf_mixed (start []) Hall)
    as (ld & lc & w2 & Hb & _ & _ & Hp).
  assert (Hb' : builders Ex2.cf_mixed (start [])
                = (inr (0%nat, 1%nat), (builders Ex2.cf_mixed (start [])).2))
    by (vm_compute; reflexivity).
  rewrite Hb' in Hb. injection Hb as <- <- <-.
  cbv zeta in Hp. rewrite Hp. vm_compute. by split_and!.
Defined.

Lemma create_records_none (d c : gmap string Record) :
  (∀ k, is_Some (d !! k) → is_Some (c !! k)) → create_records d c = ∅.
Proof.
  intros Hsub. apply map_eq. intros k.
  rewrite create_records_lookup, lookup_empty.
  destruct (c !! k) eqn:Hc; [done|].
  destruct (d !! k) eqn:Hd; [|done].
  destruct (Hsub k) as [? Hc']; [by rewrite Hd|congruence].
Qed.

Lemma update_records_none (d c : gmap string Record) :
  (∀ k dr cr, d !! k = Some dr → c !! k = Some cr → truedesire dr cr = cr) →
  update_records d c = ∅.
Proof.
  intros Hsame. apply map_eq. intros k.
  rewrite update_records_lookup, lookup_empty.
  destruct (d !! k) as [dr|] eqn:Hd; [|done].
  destruct (c !! k) as [cr|] eqn:Hc; [|done].
  by rewrite (proj2 (Record_ne_false _ _) (Hsame k dr cr Hd Hc)).
Qed.

Lemma delete_records_none (d c : gmap string Record) :
  (∀ k, is_Some (c !! k) → d !! k = None →
        Str.endswith k ".cfargotunnel.com" = false) →
  delete_records d c = ∅.
Proof.
  intros Hkeep. apply map_eq. intros k.
  rewrite delete_records_lookup, lookup_empty.
  destruct (Str.endswith k ".cfargotunnel.com") eqn:Hend; [|done].
  destruct (d !! k) eqn:Hd; [done|].
  destruct (c !! k) eqn:Hc; [|done].
  rewrite Hkeep in Hend; [done|by rewrite Hc|done].
Qed.

(** X13. A run on a provider in sync is silent.  When every ingress apex
    resolves, every hostname of the desired dict has a current record that
    equals the desired one up to the id, and no other current hostname ends
    with the tunnel suffix, [process] returns normally in the world the
    builders left, whatever [prompt] is: no prompt is shown, no line is
    read and no call is issued. *)
Theorem process_in_sync_is_silent cf prompt w :
  Forall (resolvable (zones cf)) (ingress_rules cf) →
  ∃ _desired _current w2,
    builders cf w = (inr (_desired, _current), w2)
    ∧ calls w2 = calls w ∧ stdin w2 = stdin w
    ∧ ((∀ k dr,
          heap w2 _desired !! k = Some dr →
          ∃ cr, heap w2 _current !! k = Some cr ∧ truedesire dr cr = cr) →
       (∀ k,
          is_Some (heap w2 _current !! k) → heap w2 _desired !! k = None →
          Str.endswith k ".cfargotunnel.com" = false) →
       process cf prompt w = (inr tt, w2)).
Proof.
  intros Hall. destruct (desired_after_total _ _ ∅ Hall) as [d Hd].
  pose proof (builders_run cf w) as Hb. rewrite Hd in Hb.
  destruct Hb as (w2 & Hrun & _ & _ & Hc & Hs & Hp).
  exists (next_ref w), (S (next_ref w)), w2. split_and!; try done.
  intros Hsync Hrest. rewrite Hp.
  rewrite bind_run, create_run, gated_empty; cbv beta iota.
  - rewrite bind_run, update_run, gated_empty; cbv beta iota.
    + rewrite delete_run. apply gated_empty. by apply delete_records_none.
    + apply update_records_none. intros k dr cr Hk Hk'.
      destruct (Hsync k dr Hk) as (cr' & Hcr & Heq). congruence.
  - apply create_records_none. intros k [dr Hk].
    destruct (Hsync k dr Hk) as (cr & Hcr & _). by exists cr.
Qed.

Lemma process_in_sync_is_silent_witness :
  (process Ex2.cf_sync true (start [])).1 = inr tt
  ∧ calls (process Ex2.cf_sync true (start [])).2 = [].
Proof.
  assert (Hrules : ingress_rules Ex2.cf_sync = [("T1", "a.example.com")])
    by (vm_compute; reflexivity).
  assert (Hall : Forall (resolvable (zones Ex2.cf_sync))
                        (ingress_rules Ex2.cf_sync)).
  { rewrite Hrules. repeat constructor; exists "Z1"; vm_compute; reflexivity. }
  destruct (process_in_sync_is_silent Ex2.cf_sync true (start []) Hall)
    as (ld & lc & w2 & Hb & Hc & _ & Hp).
  assert (Hb' : builders Ex2.cf_sync (start [])
                = (inr (0%nat, 1%nat), (builders Ex2.cf_sync (start [])).2))
    by (vm_compute; reflexivity).
  rewrite Hb' in Hb. injection Hb as <- <- Hw2.
  assert (Hd : heap w2 0%nat = Ex.only "a.example.com" Ex.desired_a)
    by (rewrite <- Hw2; vm_compute; reflexivity).
  assert (Hcur : heap w2 1%nat
                 = <["a.example.com" := Ex.current_a]>
                     (Ex.only "c.example.com" Ex.current_c))
    by (rewrite <- Hw2; vm_compute; reflexivity).
  clear Hw2 Hb'. rewrite Hp.
  - simpl. rewrite Hc. split; reflexivity.
  - intros k dr. rewrite Hd, Hcur. unfold Ex.only.
    intros [<- <-]%lookup_singleton_Some. exists Ex.current_a.
    rewrite lookup_insert_eq. split; reflexivity.
  - intros k. rewrite Hd, Hcur. unfold Ex.only. clear Hp.
    intros [cr Hk] Hnone.
    apply lookup_insert_Some in Hk as [[<- _]|[_ [<- _]%lookup_singleton_Some]].
    + rewrite lookup_singleton_eq in Hnone. discriminate Hnone.
    + reflexivity.
Defined.

Lemma desired_after_resolvable zs rules acc d :
  desired_after zs rules acc = inr d → Forall (resolvable zs) rules.
Proof.
  revert acc. induction rules as [|[tid host] rest IH]; intros acc Hd.
  - constructor.
  - simpl in Hd. destruct (find_zone zs (apex host)) as [zid|] eqn:Hz; [|done].
    constructor; [by exists zid|by eapply IH].
Qed.

Lemma desired_dict_Some zs rules d k dr :
  desired_after zs rules ∅ = inr d → d !! k = Some dr →
  ∃ tid zid,
    (tid, k) ∈ rules ∧ find_zone zs (apex k) = Some zid ∧
    dr = tunnel_record zid tid.
Proof.
  intros Hd. rewrite (desired_after_lookup _ _ _ _ k Hd), lookup_empty.
  destruct (last_tunnel rules k) as [tid|] eqn:Hlast; [|done].
  destruct (find_zone zs (apex k)) as [zid|]; [|done].
  intros [= <-]. exists tid, zid. split; [|done]. by apply last_tunnel_elem.
Qed.

Lemma desired_dict_None zs rules d k tid :
  desired_after zs rules ∅ = inr d → d !! k = None → (tid, k) ∉ rules.
Proof.
  intros Hd Hnone Hin.
  rewrite (desired_after_lookup _ _ _ _ k Hd) in Hnone.
  destruct (elem_last_tunnel _ _ _ Hin) as [tid' Hlast]. rewrite Hlast in Hnone.
  apply desired_after_resolvable in Hd. rewrite Forall_forall in Hd.
  destruct (Hd (tid, k)) as [zid Hz]; [by apply list_elem_of_In|].
  simpl in Hz. by rewrite Hz in Hnone.
Qed.

Lemma current_after_keeps records acc name :
  is_Some (acc !! name) → is_Some (current_after records acc !! name).
Proof.
  revert acc. induction records as [|record rest IH]; intros acc Hacc; [done|].
  change (current_after (record :: rest) acc)
    with (current_after rest (<[r_name record := current_record record]> acc)).
  apply IH. rewrite lookup_insert_is_Some.
  destruct (decide (r_name record = name)); [by left|by right].
Qed.

Lemma current_dict_None records acc name record :
  current_after records acc !! name = None → record ∈ records →
  r_name record ≠ name.
Proof.
  intros Hnone Hin Hname.
  apply list_elem_of_split in Hin as (before & after & ->).
  rewrite current_after_app in Hnone.
  change (current_after (record :: after) ?a)
    with (current_after after (<[r_name record := current_record record]> a))
    in Hnone.
  apply eq_None_not_Some in Hnone. apply Hnone, current_after_keeps.
  rewrite Hname. by rewrite lookup_insert_eq.
Qed.

Lemma gated_issues_only P records call applies prompt w :
  (∀ k r, records !! k = Some r → P (call (k, r))) →
  issues_only P w (gated records call applies prompt w).
Proof.
  intros Hall.
  assert (Hcalls : Forall P (call <$> map_to_list records)).
  { apply Forall_fmap, Forall_forall.
    intros [k r] Hin%list_elem_of_In%elem_of_map_to_list. by apply Hall. }
  unfold gated, issues_only.
  repeat case_match; simpl; (split; [done|]);
    first [ by exists (call <$> map_to_list records)
          | exists []; by rewrite app_nil_r ].
Qed.

Lemma issues_only_bind {A B} P (m : Run A) (f : A → Run B) w :
  issues_only P w (m w) →
  (∀ a w1, heap w1 = heap w → issues_only P w1 (f a w1)) →
  issues_only P w ((m ≫= f) w).
Proof.
  rewrite bind_run. destruct (m w) as [[e|a] w1].
  - by intros Hm _.
  - intros [Hh (cs & Hc & HP)] Hf. simpl in *.
    destruct (Hf a w1 Hh) as [Hh2 (cs2 & Hc2 & HP2)].
    split; [congruence|]. exists (cs ++ cs2).
    rewrite Hc2, Hc, app_assoc. split; [done|by apply Forall_app].
Qed.

Lemma apply_issues_allowed cf ld lc prompt w :
  desired_after (zones cf) (ingress_rules cf) ∅ = inr (heap w ld) →
  heap w lc = current_after (listed_records cf) ∅ →
  issues_only (allowed_call cf) w
    ((create ld lc prompt;; update ld lc prompt;; delete ld lc prompt) w).
Proof.
  intros Hd Hc.
  assert (Hdesired : ∀ k dr,
            heap w ld !! k = Some dr →
            ∃ tunnel zone,
              tunnel ∈ tunnels cf ∧
              mkIngress (Some k) ∈ cfd_tunnel_configurations cf (t_id tunnel) ∧
              zone ∈ zones cf ∧ z_name zone = apex k ∧
              dr = tunnel_record (z_id zone) (t_id tunnel)).
  { intros k dr (tid & zid & Hin & Hz & ->)%(desired_dict_Some _ _ _ _ _ Hd).
    apply ingress_rules_elem in Hin as (tunnel & Ht & <- & Hrule).
    apply find_zone_Some in Hz as (zone & Hzin & Hn & <-).
    by exists tunnel, zone. }
  assert (Hcurrent : ∀ k cr,
            heap w lc !! k = Some cr →
            ∃ record,
              record ∈ listed_records cf ∧ r_name record = k ∧
              cr = current_record record).
  { intros k cr Hk. rewrite Hc in Hk.
    apply current_after_origin in Hk as [Hk|Hk]; [|done].
    by rewrite lookup_empty in Hk. }
  apply issues_only_bind.
  { rewrite create_run. apply gated_issues_only. intros k r.
    rewrite create_records_lookup.
    destruct (heap w lc !! k) eqn:Hk; [done|]. intros Hr.
    destruct (Hdesired k r Hr) as (tunnel & zone & ? & ? & ? & ? & ->).
    exists tunnel, zone. split_and!; try done.
    intros record Hin. rewrite Hc in Hk.
    by apply (current_dict_None _ _ _ _ Hk). }
  intros _ w1 Hh1. apply issues_only_bind.
  { rewrite update_run, Hh1. apply gated_issues_only. intros k r.
    rewrite update_records_lookup.
    destruct (heap w ld !! k) as [dr|] eqn:Hk; [|done].
    destruct (heap w lc !! k) as [cr|] eqn:Hk'; [|done].
    destruct (Record_ne _ _); [|done]. intros [= <-].
    destruct (Hdesired k dr Hk) as (tunnel & zone & ? & ? & ? & ? & ->).
    destruct (Hcurrent k cr Hk') as (record & ? & ? & ->).
    by exists tunnel, zone, record. }
  intros _ w2 Hh2.
  rewrite delete_run, Hh2, Hh1. apply gated_issues_only. intros k r.
  rewrite delete_records_lookup.
  destruct (Str.endswith k ".cfargotunnel.com") eqn:Hend; [|done].
  destruct (heap w ld !! k) eqn:Hk; [done|]. intros Hr.
  destruct (Hcurrent k r Hr) as (record & ? & <- & ->).
  exists record. split_and!; try done.
  intros tunnel Ht Hrule.
  apply (desired_dict_None _ _ _ _ (t_id tunnel) Hd Hk).
  apply ingress_rules_elem. by exists tunnel.
Qed.

(** X14. The only mutations of a run.  On every provider, with or without
    the prompt and whatever is typed, every call [process] adds to the
    trace is one of: a post of the tunnel CNAME of a ruled hostname that is
    not listed; a patch of a listed record of a ruled hostname to its
    tunnel CNAME, addressed by the listed record's id; a delete of a listed
    record, addressed by its zone id and id, whose name has no ingress rule
    and ends with the tunnel suffix.  This holds also when the run ends
    with an exception. *)
Theorem process_issues_allowed_calls cf prompt w :
  ∃ cs,
    calls (process cf prompt w).2 = calls w ++ cs
    ∧ Forall (allowed_call cf) cs.
Proof.
  pose proof (builders_run cf w) as Hb.
  destruct (desired_after (zones cf) (ingress_rules cf) ∅) as [name|d] eqn:Hd.
  - destruct Hb as (w' & _ & Hp & Hc). exists [].
    rewrite Hp. simpl. by rewrite Hc, app_nil_r.
  - destruct Hb as (w2 & _ & Hld & Hlc & Hc & _ & Hp). rewrite Hp.
    destruct (apply_issues_allowed cf (next_ref w) (S (next_ref w)) prompt w2)
      as [_ (cs & Hcs & Hall)]; [by rewrite Hld|done|].
    exists cs. by rewrite Hcs, Hc.
Qed.

(** X15. What a prompt of [create] does to the rest of the run.  For a
    non-empty create batch with [prompt] set: an answer other than ["y"]
    skips that batch only, and [update] and [delete] then run on the same
    dicts with the rest of the input; at the end of input the [EOFError]
    ends the run, and neither [update] nor [delete] is run. *)
Theorem create_prompt_and_later_batches (ld lc : ref) (w : World) :
  create_records (heap w ld) (heap w lc) ≠ ∅ →
  (∀ line rest,
     stdin w = line :: rest → line ≠ "y" →
     (create ld lc true;; update ld lc true;; delete ld lc true) w
     = (update ld lc true;; delete ld lc true) (with_stdin w rest))
  ∧ (stdin w = [] →
     (create ld lc true;; update ld lc true;; delete ld lc true) w
     = (inl EOFError, w)).
Proof.
  intros Hne. split.
  - intros line rest Hin Hline.
    rewrite bind_run, create_run, gated_nonempty by done. rewrite Hin.
    by destruct (String.eqb_spec line "y").
  - intros Hin. rewrite bind_run, create_run, gated_nonempty by done.
    by rewrite Hin.
Qed.

Lemma create_prompt_and_later_batches_witness :
  calls ((create 0%nat 1%nat true;; update 0%nat 1%nat true;;
          delete 0%nat 1%nat true)
           (Ex.world
              (<["n.example.com" := Ex.desired_a]>
                 (Ex.only "a.example.com" Ex.desired_a2))
              (Ex.only "a.example.com" Ex.current_a) ["n"; "y"])).2
  = [Patch "Z1" (Some "rec1")
           (mkData "a.example.com" "CNAME" "T2.cfargotunnel.com" true true 1)].
Proof.
  destruct (create_prompt_and_later_batches 0%nat 1%nat
              (Ex.world
                 (<["n.example.com" := Ex.desired_a]>
                    (Ex.only "a.example.com" Ex.desired_a2))
                 (Ex.only "a.example.com" Ex.current_a) ["n"; "y"]))
    as [Hskip _].
  - intros Hempty. apply (f_equal (λ m, m !! "n.example.com")) in Hempty.
    vm_compute in Hempty. discriminate Hempty.
  - rewrite (Hskip "n" ["y"]); [|reflexivity|discriminate].
    vm_compute. reflexivity.
Defined.

Lemma first_label host :
  ("."%char ∉ list_ascii_of_string host)
  ∨ (∃ label rest,
       ("."%char ∉ list_ascii_of_string label) ∧ host = label +:+ "." +:+ rest).
Proof.
  induction host as [|ch host IH].
  - left. apply not_elem_of_nil.
  - destruct (Ascii.eqb_spec ch ".") as [->|Hne].
    + right. exists "", host. split; [apply not_elem_of_nil|done].
    + destruct IH as [Hnot|(label & rest & Hnot & ->)].
      * left. simpl. by apply not_elem_of_cons.
      * right. exists (String ch label), rest. split; [|done].
        simpl. by apply not_elem_of_cons.
Qed.

Lemma length_append s t :
  String.length (s +:+ t) = (String.length s + String.length t)%nat.
Proof.
  induction s as [|ch s IH]; [done|].
  rewrite append_cons. simpl. by rewrite IH.
Qed.

(** X16. The zone name [desired] looks up.  Every hostname either has no
    dot, and its zone name is the empty string, or is its first label, a
    dot and its zone name; so a non-empty hostname is never looked up as a
    zone under its own name: the zone name is strictly shorter. *)
Theorem apex_of_any_hostname host :
  ((("."%char ∉ list_ascii_of_string host) ∧ apex host = "")
   ∨ (∃ label,
        ("."%char ∉ list_ascii_of_string label) ∧
        host = label +:+ "." +:+ apex host))
  ∧ (host ≠ "" → (String.length (apex host) < String.length host)%nat).
Proof.
  destruct (first_label host) as [Hnot|(label & rest & Hnot & ->)].
  - rewrite (apex_no_dot _ Hnot). split; [by left|].
    destruct host; [done|]. simpl. lia.
  - rewrite (apex_label _ _ Hnot). split.
    + right. by exists label.
    + intros _. rewrite !length_append. simpl. lia.
Qed.

Lemma apex_of_any_hostname_witness :
  (String.length (apex "example.com") < String.length "example.com")%nat.
Proof.
  destruct (apex_of_any_hostname "example.com") as [_ Hshort].
  apply Hshort. discriminate.
Defined.
